(** * NT-AI: the thread / message store of [server.ts] and the turn logic of
      the React client, embedded in Rocq.

    The server keeps two SQLite tables ([threads], [messages]) behind six
    Express routes.  Every route runs one or two prepared statements
    synchronously, so a route is a function on the database.  The client
    ([App], [handleSendMessage]) drives one user turn with an external model
    call; the requests it sends are under [/api/chats], the routes of the
    server under [/api/threads]. *)

From Stdlib Require Import ZArith List String Ascii Bool Lia.
From Stdlib Require Import Sorting.Sorted Sorting.Permutation.
Import ListNotations.
Open Scope Z_scope.

(* ------------------------------------------------------------------ *)
(** ** SQL values *)

(** A nullable [TEXT] column.  [None] is SQL [NULL].  Values bound from the
    request are JSON strings or [null]; both tables declare every bound column
    [TEXT], so a stored value is always [NULL] or text. *)
Definition Text := option string.

(** [CURRENT_TIMESTAMP] yields ['YYYY-MM-DD HH:MM:SS'] in UTC.  Text order on
    that format is the order of the instants, so a timestamp is the number of
    seconds and [ORDER BY] compares numbers. *)
Definition Timestamp := Z.

(** SQL [a = b]: not true as soon as one side is [NULL]. *)
Definition sql_eq (a b : Text) : bool :=
  match a, b with
  | Some x, Some y => String.eqb x y
  | _, _ => false
  end.

(** The errors a statement of this schema can raise. *)
Inductive SqliteError :=
| SQLITE_CONSTRAINT_PRIMARYKEY
| SQLITE_CONSTRAINT_FOREIGNKEY
| SQLITE_FULL.

(* ------------------------------------------------------------------ *)
(** ** Rows *)

Module Thread.
(** [CREATE TABLE threads (id TEXT PRIMARY KEY, title TEXT,
    created_at DATETIME DEFAULT CURRENT_TIMESTAMP,
    updated_at DATETIME DEFAULT CURRENT_TIMESTAMP)].
    A [TEXT PRIMARY KEY] of a rowid table accepts [NULL]. *)
Record t := mk {
  id : Text;
  title : Text;
  created_at : Timestamp;
  updated_at : Timestamp
}.
End Thread.

Module Message.
(** [CREATE TABLE messages (id INTEGER PRIMARY KEY AUTOINCREMENT,
    thread_id TEXT, role TEXT, content TEXT,
    created_at DATETIME DEFAULT CURRENT_TIMESTAMP,
    FOREIGN KEY(thread_id) REFERENCES threads(id) ON DELETE CASCADE)]. *)
Record t := mk {
  id : Z;
  thread_id : Text;
  role : Text;
  content : Text;
  created_at : Timestamp
}.
End Message.

(* ------------------------------------------------------------------ *)
(** ** ORDER BY *)

(** SQLite scans a table in rowid order and sorts the scan with a merge that
    takes the earlier row on equal keys; rows with equal keys leave the sorter
    in scan order.  [order_by le] is that stable sort, for [le] the comparison
    of the sort keys. *)
Section OrderBy.
Context {A : Type}.
Variable le : A -> A -> bool.

Fixpoint sorter_insert (x : A) (l : list A) : list A :=
  match l with
  | [] => [x]
  | y :: l' => if le x y then x :: y :: l' else y :: sorter_insert x l'
  end.

Fixpoint order_by (l : list A) : list A :=
  match l with
  | [] => []
  | x :: l' => sorter_insert x (order_by l')
  end.
End OrderBy.

(** A list in the order of a sort key comparison. *)
Definition sorted_by {A : Type} (le : A -> A -> bool) : list A -> Prop :=
  StronglySorted (fun a b => le a b = true).

(* ------------------------------------------------------------------ *)
(** ** The database and its statements *)

Module Store.

(** [chats.db]: both tables in rowid order, and the [sqlite_sequence] entry
    that [AUTOINCREMENT] keeps for [messages] (0 while there is none). *)
Record Db := mkDb {
  threads : list Thread.t;
  messages : list Message.t;
  sqlite_sequence : Z
}.

(** The database right after the two [CREATE TABLE IF NOT EXISTS]. *)
Definition empty : Db := mkDb [] [] 0.

(** The largest rowid: 2^63 - 1. *)
Definition MAX_ROWID : Z := 9223372036854775807.

Definition largest_rowid (ms : list Message.t) : Z :=
  fold_right (fun m acc => Z.max (Message.id m) acc) 0 ms.

(** [AUTOINCREMENT]: one more than the largest rowid the table has ever
    held; [SQLITE_FULL] once the largest possible rowid was used. *)
Definition new_rowid (d : Db) : option Z :=
  let top := Z.max (largest_rowid (messages d)) (sqlite_sequence d) in
  if top <? MAX_ROWID then Some (top + 1) else None.

Definition thread_exists (key : Text) (d : Db) : bool :=
  existsb (fun t => sql_eq (Thread.id t) key) (threads d).

(** [INSERT INTO threads (id, title) VALUES (?, ?)] *)
Definition insert_thread (now : Timestamp) (id title : Text) (d : Db)
  : SqliteError + Db :=
  if thread_exists id d then inl SQLITE_CONSTRAINT_PRIMARYKEY
  else inr (mkDb (threads d ++ [Thread.mk id title now now])
                 (messages d) (sqlite_sequence d)).

(** [INSERT INTO messages (thread_id, role, content) VALUES (?, ?, ?)].
    better-sqlite3 opens its connections with foreign keys enforced, and the
    server never turns the pragma off: a non-[NULL] [thread_id] must name a
    row of [threads].  The rowid is allocated first; a failing statement
    leaves the database as it was. *)
Definition insert_message (now : Timestamp) (thread_id role content : Text)
           (d : Db) : SqliteError + Db :=
  match new_rowid d with
  | None => inl SQLITE_FULL
  | Some rowid =>
      let parent_ok :=
        match thread_id with
        | None => true
        | Some _ => thread_exists thread_id d
        end in
      if parent_ok
      then inr (mkDb (threads d)
                     (messages d ++ [Message.mk rowid thread_id role content now])
                     rowid)
      else inl SQLITE_CONSTRAINT_FOREIGNKEY
  end.

(** [UPDATE threads SET updated_at = CURRENT_TIMESTAMP WHERE id = ?] *)
Definition update_updated_at (now : Timestamp) (id : Text) (d : Db) : Db :=
  mkDb (map (fun t =>
               if sql_eq (Thread.id t) id
               then Thread.mk (Thread.id t) (Thread.title t) (Thread.created_at t) now
               else t) (threads d))
       (messages d) (sqlite_sequence d).

(** [UPDATE threads SET title = ? WHERE id = ?] *)
Definition update_title (title id : Text) (d : Db) : Db :=
  mkDb (map (fun t =>
               if sql_eq (Thread.id t) id
               then Thread.mk (Thread.id t) title (Thread.created_at t) (Thread.updated_at t)
               else t) (threads d))
       (messages d) (sqlite_sequence d).

(** [DELETE FROM threads WHERE id = ?], with the [ON DELETE CASCADE] action of
    the foreign key: every message whose [thread_id] equals the key of a
    deleted row goes in the same statement. *)
Definition delete_thread (id : Text) (d : Db) : Db :=
  let deleted := filter (fun t => sql_eq (Thread.id t) id) (threads d) in
  mkDb (filter (fun t => negb (sql_eq (Thread.id t) id)) (threads d))
       (filter (fun m =>
                  negb (existsb (fun t => sql_eq (Message.thread_id m) (Thread.id t))
                                deleted))
               (messages d))
       (sqlite_sequence d).

(** The comparison of sort keys for [ORDER BY created_at ASC]. *)
Definition by_created_at (a b : Message.t) : bool :=
  Message.created_at a <=? Message.created_at b.

(** [SELECT * FROM messages WHERE thread_id = ? ORDER BY created_at ASC] *)
Definition select_messages (id : Text) (d : Db) : list Message.t :=
  order_by by_created_at
           (filter (fun m => sql_eq (Message.thread_id m) id) (messages d)).

(** The comparison of sort keys for [ORDER BY updated_at DESC]. *)
Definition by_updated_at_desc (a b : Thread.t) : bool :=
  Thread.updated_at b <=? Thread.updated_at a.

(** [SELECT * FROM threads ORDER BY updated_at DESC] *)
Definition select_threads (d : Db) : list Thread.t :=
  order_by by_updated_at_desc (threads d).

End Store.

(* ------------------------------------------------------------------ *)
(** ** The routes of [server.ts] *)

(** What the server answers: the JSON body a handler sends, status 500 from
    Express' default error handler when a statement throws, or, when the
    request matches none of the six routes, whatever the Vite middleware or
    the static files answer ([Unhandled]): no handler has run, the database
    was not touched and the answer is not JSON from the API. *)
Inductive Response :=
| JsonSuccess
| JsonThreads (rows : list Thread.t)
| JsonMessages (rows : list Message.t)
| Status500 (e : SqliteError)
| Unhandled.

(** The server process: the database, and how many times the wall clock has
    been read so far. *)
Record World := mkWorld {
  db : Store.Db;
  tick : nat
}.

Definition boot : World := mkWorld Store.empty 0.

(** One request that has reached a handler: [express.json()] has parsed the
    body (a body above its size limit is answered before any handler and never
    gets here).  [tid] is the [:id] segment of the path, always a string; the
    other arguments are the members of the body that the handler binds.  They
    are modelled where they are JSON strings or [null]; a member of another
    JSON type (number, boolean, array, object) is outside the model. *)
Inductive Request :=
| GetThreads
| PostThread (id title : Text)
| GetMessages (tid : string)
| PostMessage (tid : string) (role content : Text)
| DeleteThread (tid : string)
| PatchThread (tid : string) (title : Text).

Section Server.

(** The wall clock: [clock n] is what the [n]-th evaluation of
    [CURRENT_TIMESTAMP] returns. *)
Variable clock : nat -> Timestamp.

Definition CURRENT_TIMESTAMP (w : World) : Timestamp * World :=
  (clock (tick w), mkWorld (db w) (S (tick w))).

(** [app.get("/api/threads")] *)
Definition listThreads (w : World) : Response * World :=
  (JsonThreads (Store.select_threads (db w)), w).

(** [app.post("/api/threads")] *)
Definition createThread (id title : Text) (w : World) : Response * World :=
  let (now, w1) := CURRENT_TIMESTAMP w in
  match Store.insert_thread now id title (db w1) with
  | inl e => (Status500 e, w1)
  | inr d => (JsonSuccess, mkWorld d (tick w1))
  end.

(** [app.get("/api/threads/:id/messages")] *)
Definition listMessages (tid : string) (w : World) : Response * World :=
  (JsonMessages (Store.select_messages (Some tid) (db w)), w).

(** [app.post("/api/threads/:id/messages")]: the [INSERT], then the
    [UPDATE] of the thread's [updated_at], each reading the clock. *)
Definition appendMessage (tid : string) (role content : Text) (w : World)
  : Response * World :=
  let (now, w1) := CURRENT_TIMESTAMP w in
  match Store.insert_message now (Some tid) role content (db w1) with
  | inl e => (Status500 e, w1)
  | inr d =>
      let (now', w2) := CURRENT_TIMESTAMP (mkWorld d (tick w1)) in
      (JsonSuccess, mkWorld (Store.update_updated_at now' (Some tid) (db w2)) (tick w2))
  end.

(** [app.delete("/api/threads/:id")] *)
Definition deleteThread (tid : string) (w : World) : Response * World :=
  (JsonSuccess, mkWorld (Store.delete_thread (Some tid) (db w)) (tick w)).

(** [app.patch("/api/threads/:id")] *)
Definition renameThread (tid : string) (title : Text) (w : World)
  : Response * World :=
  (JsonSuccess, mkWorld (Store.update_title title (Some tid) (db w)) (tick w)).

Definition handle (r : Request) : World -> Response * World :=
  match r with
  | GetThreads => listThreads
  | PostThread id title => createThread id title
  | GetMessages tid => listMessages tid
  | PostMessage tid role content => appendMessage tid role content
  | DeleteThread tid => deleteThread tid
  | PatchThread tid title => renameThread tid title
  end.

(** The server after a sequence of requests, served one after the other. *)
Definition serve (rs : list Request) (w : World) : World :=
  fold_left (fun w r => snd (handle r w)) rs w.

End Server.

(* ------------------------------------------------------------------ *)
(** ** Routing *)

Module Http.

(** The methods the server declares routes for. *)
Inductive Method := GET | POST | DELETE | PATCH.

(** The members of a parsed JSON body, each a string or [null]; the empty
    list when the request carries no body. *)
Definition Body := list (string * Text).

(** A request as Express sees it.  [path] is the path split at its slashes:
    [/api/threads/T1/messages] is [["api"; "threads"; "T1"; "messages"]]. *)
Record Req := mk {
  method : Method;
  path : list string;
  body : Body
}.

(** [req.body.name]; a member that is missing reads like [null]. *)
Fixpoint member (name : string) (b : Body) : Text :=
  match b with
  | [] => None
  | (k, v) :: rest => if String.eqb k name then v else member name rest
  end.

(** Routes match without regard to case ... *)
Definition lower (c : ascii) : ascii :=
  let n := nat_of_ascii c in
  if ((65 <=? n) && (n <=? 90))%nat then ascii_of_nat (n + 32) else c.

Fixpoint lowercase (s : string) : string :=
  match s with
  | EmptyString => EmptyString
  | String c s' => String (lower c) (lowercase s')
  end.

Definition matches (literal segment : string) : bool :=
  String.eqb (lowercase segment) literal.

(** ... and with or without one trailing slash. *)
Fixpoint segments (path : list string) : list string :=
  match path with
  | [] => []
  | [last] => if String.eqb last "" then [] else [last]
  | first :: rest => first :: segments rest
  end.

(** A [:id] parameter matches one segment that is not empty. *)
Definition param (segment : string) : bool := negb (String.eqb segment "").

(** The six routes of [server.ts], in the order they are declared; [None]
    when none matches. *)
Definition route (r : Req) : option Request :=
  match method r, segments (path r) with
  | GET, [a; t] =>
      if matches "api" a && matches "threads" t then Some GetThreads else None
  | POST, [a; t] =>
      if matches "api" a && matches "threads" t
      then Some (PostThread (member "id" (body r)) (member "title" (body r)))
      else None
  | GET, [a; t; id; m] =>
      if matches "api" a && matches "threads" t && param id && matches "messages" m
      then Some (GetMessages id) else None
  | POST, [a; t; id; m] =>
      if matches "api" a && matches "threads" t && param id && matches "messages" m
      then Some (PostMessage id (member "role" (body r)) (member "content" (body r)))
      else None
  | DELETE, [a; t; id] =>
      if matches "api" a && matches "threads" t && param id then Some (DeleteThread id) else None
  | PATCH, [a; t; id] =>
      if matches "api" a && matches "threads" t && param id
      then Some (PatchThread id (member "title" (body r))) else None
  | _, _ => None
  end.

(** An id that can be pasted into a path as one segment: not empty, and made
    of letters, digits and hyphens only, as [crypto.randomUUID()] yields.
    Other ids may change the shape of the URL; a path that holds one is outside
    the model. *)
Definition plain (id : string) : bool :=
  negb (String.eqb id "") &&
  forallb (fun c =>
             let n := nat_of_ascii c in
             ((48 <=? n) && (n <=? 57) || (65 <=? n) && (n <=? 90) ||
              (97 <=? n) && (n <=? 122) || (n =? 45))%nat)
          (list_ascii_of_string id).

End Http.

Section Application.
Variable clock : nat -> Timestamp.

(** The Express application: the handler of the route that matches, or none. *)
Definition app (r : Http.Req) (w : World) : Response * World :=
  match Http.route r with
  | Some request => handle clock request w
  | None => (Unhandled, w)
  end.
End Application.

(* ------------------------------------------------------------------ *)
(** ** The model-call helper (services module) *)

Module Gemini.

(** A chat session of the SDK: what [ai.chats.create] is given, and the
    history the session starts from. *)
Record Chat := mkChat {
  model : string;
  systemInstruction : string;
  history : list (string * string)
}.

Definition LUMINA : string :=
  "You are Lumina, a highly intelligent and helpful AI assistant. Provide clear, detailed, and accurate responses. When providing code, ensure it is well-formatted. You are designed to be easy to copy-paste into GitHub, so use clean Markdown structure.".

(** [ai.chats.create({ model, config })]: no [history] is passed, the
    session starts empty. *)
Definition chats_create (model systemInstruction : string) : Chat :=
  mkChat model systemInstruction [].

Section Call.
(** [chat.sendMessage({ message })]: the text of the reply. *)
Variable sendMessage : Chat -> string -> option string.

(** [generateChatResponse(message, history = [])] *)
Definition generateChatResponse (message : string)
           (history : list (string * string)) : option string :=
  let chat := chats_create "gemini-3-flash-preview" LUMINA in
  sendMessage chat message.
End Call.

End Gemini.

(* ------------------------------------------------------------------ *)
(** ** The client component [App] *)

(** JavaScript strings are taken with code units below 256: one [ascii] per
    code unit. *)
Module Js.

(** White space and line terminators, as [String.prototype.trim] strips
    them: TAB, LF, VT, FF, CR, SPACE and NBSP. *)
Definition is_white_space (c : ascii) : bool :=
  let n := nat_of_ascii c in
  ((9 <=? n) && (n <=? 13) || (n =? 32) || (n =? 160))%nat.

Fixpoint trimStart (s : string) : string :=
  match s with
  | EmptyString => EmptyString
  | String c s' => if is_white_space c then trimStart s' else s
  end.

Definition reverse (s : string) : string :=
  string_of_list_ascii (rev (list_ascii_of_string s)).

Definition trim (s : string) : string :=
  reverse (trimStart (reverse (trimStart s))).

(** Truthiness of a string: the empty string is falsy. *)
Definition truthy (s : string) : bool :=
  negb (String.eqb s "").

(** [s.slice(0, n)] *)
Definition slice0 (n : nat) (s : string) : string := substring 0 n s.

End Js.

Module App.

(** [role: "user" | "model"] *)
Inductive Role := user | model.

Definition role_name (r : Role) : string :=
  match r with user => "user" | model => "model" end.

Module Message.
(** [interface Message { id?: number; role; content }] *)
Record t := mk {
  id : option Z;
  role : Role;
  content : string
}.
End Message.

Module Content.
(** One entry of [contents]: [{ role, parts: [{ text }] }]. *)
Record t := mk {
  role : Role;
  parts : list string
}.
End Content.

(** An entry of [contents] read back as a [{ role, content }] pair. *)
Definition as_pair (c : Content.t) : option (Role * string) :=
  match Content.parts c with
  | [text] => Some (Content.role c, text)
  | _ => None
  end.

(** Array objects of messages live in a heap and are named by reference;
    a reference is the allocation index. *)
Definition Ref := nat.
Definition Heap := list (list Message.t).

Definition deref (h : Heap) (r : Ref) : list Message.t := nth r h [].

Definition alloc (a : list Message.t) (h : Heap) : Ref * Heap :=
  (List.length h, h ++ [a]).

(** [[...arr, x]]: a new array holding the elements of [arr], then [x]. *)
Definition spread_then (arr : Ref) (x : Message.t) (h : Heap) : Ref * Heap :=
  alloc (deref h arr ++ [x]) h.

(** [[...messages, userMessage].map(m => ({ role: m.role,
    parts: [{ text: m.content }] }))]: the context handed to the model.  The
    spread allocates; the mapped array goes to the SDK and is returned here
    as a value. *)
Definition assemble_contents (messages : Ref) (userMessage : Message.t)
           (h : Heap) : list Content.t * Heap :=
  let (tmp, h1) := spread_then messages userMessage h in
  (map (fun m => Content.mk (Message.role m) [Message.content m]) (deref h1 tmp), h1).

(** The entries for a history and a text typed by the user, on lists. *)
Definition contents_of (history : list Message.t) (text : string) : list Content.t :=
  map (fun x => Content.mk (Message.role x) [Message.content x])
      (history ++ [Message.mk None user text]).

(** The component state ([useState] cells that the turn touches). *)
Record State := mkState {
  heap : Heap;
  chats : list Thread.t;
  currentChatId : option string;
  messages : Ref;
  input : string;
  isLoading : bool
}.

Definition setChats (v : list Thread.t) (s : State) : State :=
  mkState (heap s) v (currentChatId s) (messages s) (input s) (isLoading s).
Definition setCurrentChatId (v : option string) (s : State) : State :=
  mkState (heap s) (chats s) v (messages s) (input s) (isLoading s).
Definition setInput (v : string) (s : State) : State :=
  mkState (heap s) (chats s) (currentChatId s) (messages s) v (isLoading s).
Definition setIsLoading (v : bool) (s : State) : State :=
  mkState (heap s) (chats s) (currentChatId s) (messages s) (input s) v.

(** [setMessages((prev) => [...prev, m])] *)
Definition setMessages_append (m : Message.t) (s : State) : State :=
  let (r, h) := spread_then (messages s) m (heap s) in
  mkState h (chats s) (currentChatId s) r (input s) (isLoading s).

(** What [ai.models.generateContent] does: the promise rejects, or resolves
    to a response whose [text] may be undefined. *)
Inductive ModelOutcome :=
| Rejects
| Resolves (text : option string).

Definition ERROR_REPLY : string := "Error: Failed to connect to AI service.".
Definition NO_RESPONSE : string := "I'm sorry, I couldn't generate a response.".

(** [response.text || "I'm sorry, I couldn't generate a response."] *)
Definition aiContent (text : option string) : string :=
  match text with
  | Some t => if Js.truthy t then t else NO_RESPONSE
  | None => NO_RESPONSE
  end.

Section Turn.
Variable clock : nat -> Timestamp.
Variable generateContent : list Content.t -> ModelOutcome.

(** [fetch(url, { method, body })] against the server.  A response that is
    not a success does not make [fetch] throw. *)
Definition fetch (method : Http.Method) (path : list string) (body : Http.Body)
           (w : World) : Response * World :=
  app clock (Http.mk method path body) w.

(** [fetchChats]: [GET /api/chats]; [setChats] is reached only when the
    answer parses as JSON, otherwise [res.json()] throws into the [catch]. *)
Definition fetchChats (s : State) (w : World) : State * World :=
  match fetch Http.GET ["api"; "chats"]%string [] w with
  | (JsonThreads rows, w') => (setChats rows s, w')
  | (_, w') => (s, w')
  end.

(** [POST /api/chats] with [JSON.stringify({ id, title })]. *)
Definition post_chat (id title : string) (w : World) : Response * World :=
  fetch Http.POST ["api"; "chats"]%string
        [("id", Some id); ("title", Some title)]%string w.

(** [POST /api/chats/${chatId}/messages] with [JSON.stringify(m)], the
    [role] and [content] of the message. *)
Definition post_message (chatId : string) (m : Message.t) (w : World)
  : Response * World :=
  fetch Http.POST ["api"; "chats"; chatId; "messages"]%string
        [("role", Some (role_name (Message.role m)));
         ("content", Some (Message.content m))]%string w.

(** The [if (!chatId) { ... }] block: with no chat selected ([null], or the
    empty string, which is falsy too), create one under the fresh [uuid],
    titled by the first 30 code units of the input. *)
Definition ensureChat (uuid : string) (s : State) (w : World)
  : string * State * World :=
  let selected :=
    match currentChatId s with
    | Some chatId => if Js.truthy chatId then Some chatId else None
    | None => None
    end in
  match selected with
  | Some chatId => (chatId, s, w)
  | None =>
      let title :=
        (Js.slice0 30 (input s) ++
           (if (30 <? String.length (input s))%nat then "..." else ""))%string in
      let (_, w1) := post_chat uuid title w in
      let (s1, w2) := fetchChats s w1 in
      (uuid, setCurrentChatId (Some uuid) s1, w2)
  end.

(** [handleSendMessage]; [uuid] is what [crypto.randomUUID()] would
    return. *)
Definition handleSendMessage (uuid : string) (s : State) (w : World)
  : State * World :=
  if negb (Js.truthy (Js.trim (input s))) || isLoading s then (s, w)
  else
    let '(chatId, s1, w1) := ensureChat uuid s w in
    let userMessage := Message.mk None user (input s) in
    let s2 := setIsLoading true (setInput "" (setMessages_append userMessage s1)) in
    (* try *)
    let (_, w2) := post_message chatId userMessage w1 in
    let (contents, h) := assemble_contents (messages s) userMessage (heap s2) in
    let s3 := mkState h (chats s2) (currentChatId s2) (messages s2) (input s2) (isLoading s2) in
    match generateContent contents with
    | Resolves text =>
        let aiMessage := Message.mk None model (aiContent text) in
        let s4 := setMessages_append aiMessage s3 in
        let (_, w3) := post_message chatId aiMessage w2 in
        (setIsLoading false s4, w3)
    | Rejects =>
        (* catch *)
        let s4 := setMessages_append (Message.mk None model ERROR_REPLY) s3 in
        (setIsLoading false s4, w2)
    end.

(** [createNewChat]; [uuid] is what [crypto.randomUUID()] would return. *)
Definition createNewChat (uuid : string) (s : State) (w : World) : State * World :=
  let (_, w1) := post_chat uuid "New Conversation" w in
  let (s1, w2) := fetchChats s w1 in
  (setCurrentChatId (Some uuid) s1, w2).

(** [deleteChat(id, e)]: [DELETE /api/chats/${id}], the reload of the list,
    and the selection dropped when it was the deleted chat. *)
Definition deleteChat (id : string) (s : State) (w : World) : State * World :=
  let (_, w1) := fetch Http.DELETE ["api"; "chats"; id]%string [] w in
  let (s1, w2) := fetchChats s w1 in
  match currentChatId s with
  | Some current =>
      if String.eqb current id then (setCurrentChatId None s1, w2) else (s1, w2)
  | None => (s1, w2)
  end.
End Turn.

End App.

(* ------------------------------------------------------------------ *)
(** ** The title helper (services module) *)

Module Title.

(** The two characters the pattern of [replace] matches: the double quote
    (code unit 34) and the apostrophe (code unit 39). *)
Definition is_quote (c : ascii) : bool :=
  let n := nat_of_ascii c in ((n =? 34) || (n =? 39))%nat.

(** [text.replace(pattern, empty)]: every match is dropped. *)
Fixpoint strip_quotes (s : string) : string :=
  match s with
  | EmptyString => EmptyString
  | String c s' => if is_quote c then strip_quotes s' else String c (strip_quotes s')
  end.

Definition NEW_CHAT : string := "New Chat".

(** The template literal handed to the model; the message sits between two
    double quotes. *)
Definition prompt (message : string) : string :=
  ("Generate a very short, 2-4 word title for a chat that starts with this message: "
     ++ String (ascii_of_nat 34) message
     ++ String (ascii_of_nat 34) ". Return only the title text.")%string.

Section Call.
Variable generateContent : string -> App.ModelOutcome.

(** [generateTitle(message)]: [None] when the model call rejects (nothing
    catches it); otherwise the text without quotes, trimmed, or [NEW_CHAT]
    when that is empty or the response has no text. *)
Definition generateTitle (message : string) : option string :=
  match generateContent (prompt message) with
  | App.Rejects => None
  | App.Resolves None => Some NEW_CHAT
  | App.Resolves (Some text) =>
      let cleaned := Js.trim (strip_quotes text) in
      Some (if Js.truthy cleaned then cleaned else NEW_CHAT)
  end.
End Call.

End Title.

(* ------------------------------------------------------------------ *)
(** ** Properties of a database *)

Module Inv.
Import Store.

(** No message without its thread: every [thread_id] is the id of a row of
    [threads] (in particular it is not [NULL]). *)
Definition orphan_free (d : Db) : Prop :=
  Forall (fun m => thread_exists (Message.thread_id m) d = true) (messages d).

Definition id_lt (a b : Message.t) : Prop := Message.id a < Message.id b.
Definition created_le (a b : Message.t) : Prop :=
  Message.created_at a <= Message.created_at b.

(** The order of [(created_at, id)] pairs. *)
Definition created_then_id (a b : Message.t) : Prop :=
  Message.created_at a < Message.created_at b \/
  (Message.created_at a = Message.created_at b /\ Message.id a < Message.id b).

Definition distinct_key (a b : Thread.t) : Prop :=
  sql_eq (Thread.id a) (Thread.id b) = false.

(** What holds of the database whatever the clock does. *)
Record Consistent (d : Db) : Prop := {
  c_orphans : orphan_free d;
  c_rowids : Forall (fun m => 0 < Message.id m <= sqlite_sequence d) (messages d);
  c_seq : 0 <= sqlite_sequence d <= MAX_ROWID;
  c_ascending : StronglySorted id_lt (messages d);
  c_primary_key : StronglySorted distinct_key (threads d)
}.

(** What holds in addition while the clock never steps back; [now] bounds
    every timestamp written so far. *)
Record Timely (now : Timestamp) (d : Db) : Prop := {
  t_threads : Forall (fun t => Thread.updated_at t <= now) (threads d);
  t_messages : Forall (fun m => Message.created_at m <= now) (messages d);
  t_chronological : StronglySorted created_le (messages d);
  t_recency : forall m t, In m (messages d) -> In t (threads d) ->
                sql_eq (Message.thread_id m) (Thread.id t) = true ->
                Message.created_at m <= Thread.updated_at t
}.

(** The ids of the threads that have one (a [NULL] id is no id). *)
Definition keys (ts : list Thread.t) : list string :=
  flat_map (fun t => match Thread.id t with Some k => [k] | None => [] end) ts.

(** Every thread was updated no earlier than it was created. *)
Definition created_before_updated (d : Db) : Prop :=
  Forall (fun t => Thread.created_at t <= Thread.updated_at t) (threads d).

(** The [updated_at] of the thread with the given id, if there is one. *)
Definition updated_at_of (tid : string) (d : Db) : option Timestamp :=
  option_map Thread.updated_at
             (find (fun t => sql_eq (Thread.id t) (Some tid)) (threads d)).

End Inv.

(** Vocabulary for strings and for the client's view of a thread. *)
Module View.

(** The code units of a string. *)
Definition chars (s : string) : list ascii := list_ascii_of_string s.

(** Every code unit of the string is white space. *)
Definition blank (s : string) : Prop :=
  Forall (fun c => Js.is_white_space c = true) (chars s).

(** The string does not begin with white space. *)
Definition clean_start (s : string) : Prop :=
  match s with
  | EmptyString => True
  | String c _ => Js.is_white_space c = false
  end.

(** The string does not end with white space. *)
Definition clean_end (s : string) : Prop := clean_start (Js.reverse s).

(** A message of the component as the [(role, content)] the API stores. *)
Definition as_stored (m : App.Message.t) : Text * Text :=
  (Some (App.role_name (App.Message.role m)), Some (App.Message.content m)).

End View.

(** A run of [appendMessage] calls on one thread. *)
Section Appends.
Variable clock : nat -> Timestamp.

Definition appendAll (tid : string) (calls : list (Text * Text)) (w : World) : World :=
  serve clock (map (fun c => PostMessage tid (fst c) (snd c)) calls) w.

(** The [(role, content)] of the calls that were answered with success. *)
Fixpoint accepted (tid : string) (calls : list (Text * Text)) (w : World)
  : list (Text * Text) :=
  match calls with
  | [] => []
  | c :: rest =>
      let (r, w') := appendMessage clock tid (fst c) (snd c) w in
      match r with
      | JsonSuccess => c :: accepted tid rest w'
      | _ => accepted tid rest w'
      end
  end.
End Appends.

Definition role_content (m : Message.t) : Text * Text :=
  (Message.role m, Message.content m).

(** A clock that never steps back. *)
Definition monotone (clock : nat -> Timestamp) : Prop :=
  forall n, clock n <= clock (S n).

(** A clock that advances by one second at every reading, used in the
    examples. *)
Definition wall_clock (n : nat) : Timestamp := 1700000000 + Z.of_nat n.

(** A clock that is set back between the second and the third reading. *)
Definition set_back_clock (n : nat) : Timestamp :=
  match n with
  | 0%nat | 1%nat => 1700000100
  | _ => 1700000000 + Z.of_nat n
  end.

(** The same clock read one tick late: it is set back between the third and
    the fourth reading. *)
Definition late_set_back_clock (n : nat) : Timestamp := set_back_clock (n - 1).

(** A model call that rejects a context of one entry and answers any
    other, used in the examples. *)
Definition answers_after_first (contents : list App.Content.t) : App.ModelOutcome :=
  match contents with
  | [_] => App.Rejects
  | _ => App.Resolves (Some "Hi there"%string)
  end.



(** A title model that answers a quoted, padded text, used in the
    examples. *)
Definition quoting_model (prompt : string) : App.ModelOutcome :=
  App.Resolves (Some (String (ascii_of_nat 34) "  Trip Plans' "
                        ++ String (ascii_of_nat 34) " ")%string).

(* ================================================================== *)
(** * Lemmas *)

(** ** Lists *)

Section ListFacts.
Context {A : Type}.

Lemma filter_all (f : A -> bool) (l : list A) :
  (forall x, In x l -> f x = true) -> filter f l = l.
Proof.
  induction l as [|a l IH]; simpl; intros H; [reflexivity|].
  rewrite (H a (or_introl eq_refl)). f_equal. apply IH. auto.
Qed.

Lemma filter_none (f : A -> bool) (l : list A) :
  (forall x, In x l -> f x = false) -> filter f l = [].
Proof.
  induction l as [|a l IH]; simpl; intros H; [reflexivity|].
  rewrite (H a (or_introl eq_refl)). apply IH. auto.
Qed.

Lemma existsb_false_iff (f : A -> bool) (l : list A) :
  existsb f l = false <-> (forall x, In x l -> f x = false).
Proof.
  induction l as [|a l IH]; simpl.
  - split; [intros _ x []|reflexivity].
  - rewrite orb_false_iff, IH. split.
    + intros [Ha Hl] x [<-|Hx]; auto.
    + intros H. split; auto.
Qed.

Variable R : A -> A -> Prop.

Lemma StronglySorted_snoc (l : list A) (x : A) :
  StronglySorted R l -> Forall (fun y => R y x) l -> StronglySorted R (l ++ [x]).
Proof.
  induction 1 as [|a l Hs IH Ha]; intros Hx; simpl.
  - repeat constructor.
  - inversion Hx; subst. constructor; [auto|].
    apply Forall_app. split; [assumption|]. constructor; [assumption|constructor].
Qed.

Lemma StronglySorted_filter (f : A -> bool) (l : list A) :
  StronglySorted R l -> StronglySorted R (filter f l).
Proof.
  induction 1 as [|a l Hs IH Ha]; simpl; [constructor|].
  destruct (f a); [|assumption].
  constructor; [assumption|].
  rewrite Forall_forall in *. intros y Hy. apply filter_In in Hy. apply Ha, Hy.
Qed.

Lemma StronglySorted_weaken (R' : A -> A -> Prop) (l : list A) :
  (forall a b, R a b -> R' a b) -> StronglySorted R l -> StronglySorted R' l.
Proof.
  intros HR. induction 1 as [|a l Hs IH Ha]; constructor; [assumption|].
  revert Ha. apply Forall_impl. auto.
Qed.
End ListFacts.

(** ** The sorter *)

Section SorterFacts.
Context {A : Type}.
Variable le : A -> A -> bool.

Lemma sorter_insert_perm (x : A) (l : list A) :
  Permutation (sorter_insert le x l) (x :: l).
Proof.
  induction l as [|y l IH]; simpl; [reflexivity|].
  destruct (le x y); [reflexivity|].
  rewrite IH. apply perm_swap.
Qed.

Lemma order_by_perm (l : list A) : Permutation (order_by le l) l.
Proof.
  induction l as [|x l IH]; simpl; [reflexivity|].
  rewrite sorter_insert_perm. constructor. exact IH.
Qed.

Lemma order_by_In (l : list A) (x : A) : In x (order_by le l) <-> In x l.
Proof.
  split; apply Permutation_in; [|symmetry]; apply order_by_perm.
Qed.

(** A scan that is already in key order leaves the sorter as it came. *)
Lemma order_by_sorted (l : list A) :
  StronglySorted (fun a b => le a b = true) l -> order_by le l = l.
Proof.
  induction 1 as [|a l Hs IH Ha]; simpl; [reflexivity|].
  rewrite IH. destruct l as [|b l]; [reflexivity|].
  simpl. inversion Ha as [|? ? Hab _]; subst. now rewrite Hab.
Qed.
End SorterFacts.

(** ** SQL equality *)

Lemma sql_eq_Some (a : Text) (k : string) : sql_eq a (Some k) = true <-> a = Some k.
Proof.
  destruct a as [x|]; simpl; [|split; discriminate].
  rewrite String.eqb_eq. split; congruence.
Qed.

Lemma sql_eq_sym (a b : Text) : sql_eq a b = sql_eq b a.
Proof. destruct a, b; simpl; auto using String.eqb_sym. Qed.

Lemma sql_eq_refl (k : string) : sql_eq (Some k) (Some k) = true.
Proof. apply sql_eq_Some. reflexivity. Qed.

Lemma sql_eq_true (a b : Text) : sql_eq a b = true -> exists k, a = Some k /\ b = Some k.
Proof.
  destruct a as [x|], b as [y|]; simpl; try discriminate.
  rewrite String.eqb_eq. intros ->. eauto.
Qed.

Lemma sql_eq_trans (a b c : Text) : sql_eq a b = true -> sql_eq b c = sql_eq a c.
Proof. intros H. apply sql_eq_true in H as (k & -> & ->). reflexivity. Qed.

(** ** The sorter on messages: equal [created_at] keep rowid order *)

Section MessageOrder.
Import Inv.

Lemma created_then_id_le (a b : Message.t) :
  created_then_id a b -> Message.created_at a <= Message.created_at b.
Proof. unfold created_then_id. lia. Qed.

Lemma sorter_insert_stable (x : Message.t) (s : list Message.t) :
  StronglySorted created_then_id s ->
  Forall (id_lt x) s ->
  StronglySorted created_then_id (sorter_insert Store.by_created_at x s).
Proof.
  induction 1 as [|y s Hs IH Hy]; intros Hx; simpl.
  - repeat constructor.
  - inversion Hx as [|? ? Hxy Hxs]; subst.
    unfold Store.by_created_at at 1.
    destruct (Z.leb_spec (Message.created_at x) (Message.created_at y)) as [Hle|Hgt].
    + constructor; [constructor; assumption|].
      assert (Hall : Forall (fun z => Message.created_at x <= Message.created_at z) (y :: s)).
      { constructor; [assumption|]. revert Hy. apply Forall_impl.
        intros z Hz. apply created_then_id_le in Hz. lia. }
      rewrite Forall_forall in *. intros z Hz.
      specialize (Hall z Hz). specialize (Hx z Hz).
      unfold created_then_id, id_lt in *. lia.
    + constructor; [apply IH; assumption|].
      rewrite Forall_forall in *. intros z Hz.
      apply (Permutation_in _ (sorter_insert_perm _ _ _)) in Hz.
      destruct Hz as [<-|Hz]; [left; lia|auto].
Qed.

Lemma order_by_stable (l : list Message.t) :
  StronglySorted id_lt l ->
  StronglySorted created_then_id (order_by Store.by_created_at l).
Proof.
  induction 1 as [|x l Hs IH Hx]; simpl; [constructor|].
  apply sorter_insert_stable; [assumption|].
  rewrite Forall_forall in *. intros z Hz. apply Hx.
  apply (order_by_In Store.by_created_at). exact Hz.
Qed.
End MessageOrder.

(** ** Statements keep the database consistent *)

Section StoreFacts.
Import Store Inv.

Lemma thread_exists_In (key : Text) (d : Db) :
  thread_exists key d = true <->
  exists t, In t (threads d) /\ sql_eq (Thread.id t) key = true.
Proof. unfold thread_exists. apply existsb_exists. Qed.

Lemma thread_exists_same_keys (key : Text) (d : Db) (ms : list Message.t)
      (q : Z) (f : Thread.t -> Thread.t) :
  (forall t, Thread.id (f t) = Thread.id t) ->
  thread_exists key (mkDb (map f (threads d)) ms q) = thread_exists key d.
Proof.
  intros Hf. unfold thread_exists; simpl.
  induction (threads d) as [|t ts IH]; simpl; [reflexivity|].
  now rewrite Hf, IH.
Qed.

Lemma primary_key_map (f : Thread.t -> Thread.t) (ts : list Thread.t) :
  (forall t, Thread.id (f t) = Thread.id t) ->
  StronglySorted distinct_key ts -> StronglySorted distinct_key (map f ts).
Proof.
  intros Hf. induction 1 as [|t ts Hs IH Ht]; simpl; constructor; [assumption|].
  rewrite Forall_map. revert Ht. apply Forall_impl. intros u.
  unfold distinct_key. now rewrite !Hf.
Qed.

(** Under the primary key, a key names at most one row. *)
Lemma primary_key_unique (ts : list Thread.t) (a b : Thread.t) :
  StronglySorted distinct_key ts -> In a ts -> In b ts ->
  sql_eq (Thread.id a) (Thread.id b) = true -> a = b.
Proof.
  induction 1 as [|t ts Hs IH Ht]; simpl; [intros []|].
  rewrite Forall_forall in Ht. unfold distinct_key in Ht.
  intros [<-|Ha] [<-|Hb] E; auto.
  - rewrite (Ht b Hb) in E. discriminate.
  - rewrite sql_eq_sym, (Ht a Ha) in E. discriminate.
Qed.

Lemma largest_rowid_ge (ms : list Message.t) (m : Message.t) :
  In m ms -> Message.id m <= largest_rowid ms.
Proof.
  induction ms as [|a ms IH]; simpl; [intros []|].
  intros [<-|H]; [lia|]. specialize (IH H). lia.
Qed.

Lemma largest_rowid_le (ms : list Message.t) (q : Z) :
  0 <= q -> Forall (fun m => 0 < Message.id m <= q) ms -> largest_rowid ms <= q.
Proof.
  intros Hq. induction 1 as [|a ms Ha _ IH]; simpl; lia.
Qed.

Lemma new_rowid_spec (d : Db) (rowid : Z) :
  Consistent d -> new_rowid d = Some rowid ->
  rowid = sqlite_sequence d + 1 /\ sqlite_sequence d < MAX_ROWID.
Proof.
  intros C. unfold new_rowid.
  pose proof (largest_rowid_le _ _ (proj1 (c_seq _ C)) (c_rowids _ C)) as Hl.
  destruct (Z.ltb_spec (Z.max (largest_rowid (messages d)) (sqlite_sequence d)) MAX_ROWID);
    [|discriminate].
  intros [= <-]. lia.
Qed.

Lemma new_rowid_available (d : Db) :
  Consistent d -> sqlite_sequence d < MAX_ROWID ->
  new_rowid d = Some (sqlite_sequence d + 1).
Proof.
  intros C Hq. unfold new_rowid.
  pose proof (largest_rowid_le _ _ (proj1 (c_seq _ C)) (c_rowids _ C)) as Hl.
  replace (Z.max (largest_rowid (messages d)) (sqlite_sequence d))
    with (sqlite_sequence d) by lia.
  destruct (Z.ltb_spec (sqlite_sequence d) MAX_ROWID); [reflexivity|lia].
Qed.

Lemma empty_consistent : Consistent empty.
Proof. split; simpl; try constructor; unfold MAX_ROWID; lia. Qed.

Lemma insert_thread_consistent now id title d d' :
  insert_thread now id title d = inr d' -> Consistent d -> Consistent d'.
Proof.
  unfold insert_thread. destruct (thread_exists id d) eqn:E; [discriminate|].
  intros [= <-] [Ho Hr Hq Ha Hp]. split; simpl; auto.
  - revert Ho. unfold orphan_free; simpl. apply Forall_impl. intros m.
    unfold thread_exists; simpl. rewrite existsb_app. intros ->. reflexivity.
  - apply StronglySorted_snoc; [assumption|].
    unfold thread_exists in E. rewrite existsb_false_iff in E.
    apply Forall_forall. exact E.
Qed.

Lemma insert_message_consistent now tid role content d d' :
  insert_message now (Some tid) role content d = inr d' ->
  Consistent d -> Consistent d'.
Proof.
  unfold insert_message. intros H C.
  destruct (new_rowid d) as [rowid|] eqn:En; [|discriminate].
  destruct (new_rowid_spec _ _ C En) as [-> Hlt].
  destruct (thread_exists (Some tid) d) eqn:Ex; [|discriminate].
  injection H as <-. destruct C as [Ho Hr Hq Ha Hp]. split; simpl; auto.
  - apply Forall_app. split; [exact Ho|]. constructor; [exact Ex|constructor].
  - apply Forall_app. split.
    + revert Hr. apply Forall_impl. intros; lia.
    + constructor; [simpl; lia|constructor].
  - lia.
  - apply StronglySorted_snoc; [assumption|].
    revert Hr. apply Forall_impl. unfold id_lt; simpl. intros; lia.
Qed.

Lemma update_updated_at_consistent now id d :
  Consistent d -> Consistent (update_updated_at now id d).
Proof.
  intros [Ho Hr Hq Ha Hp]. unfold update_updated_at.
  set (f := fun t : Thread.t => if sql_eq (Thread.id t) id then _ else t).
  assert (Hf : forall t, Thread.id (f t) = Thread.id t).
  { intros t. unfold f. destruct (sql_eq _ _); reflexivity. }
  split; simpl; auto.
  - unfold orphan_free in *; simpl. revert Ho. apply Forall_impl. intros m Hm.
    rewrite thread_exists_same_keys; assumption.
  - apply primary_key_map; assumption.
Qed.

Lemma update_title_consistent title id d :
  Consistent d -> Consistent (update_title title id d).
Proof.
  intros [Ho Hr Hq Ha Hp]. unfold update_title.
  set (f := fun t : Thread.t => if sql_eq (Thread.id t) id then _ else t).
  assert (Hf : forall t, Thread.id (f t) = Thread.id t).
  { intros t. unfold f. destruct (sql_eq _ _); reflexivity. }
  split; simpl; auto.
  - unfold orphan_free in *; simpl. revert Ho. apply Forall_impl. intros m Hm.
    rewrite thread_exists_same_keys; assumption.
  - apply primary_key_map; assumption.
Qed.

Lemma delete_thread_consistent id d :
  Consistent d -> Consistent (delete_thread id d).
Proof.
  intros [Ho Hr Hq Ha Hp]. unfold delete_thread. split; simpl; auto.
  - unfold orphan_free in *; simpl. rewrite Forall_forall in *.
    intros m Hm. apply filter_In in Hm as [Hm Hkeep].
    apply negb_true_iff in Hkeep. rewrite existsb_false_iff in Hkeep.
    specialize (Ho m Hm). apply thread_exists_In in Ho as (t & Ht & E).
    apply thread_exists_In; simpl. exists t. split; [|exact E].
    apply filter_In. split; [exact Ht|].
    destruct (sql_eq (Thread.id t) id) eqn:Eid; [|reflexivity].
    assert (In t (filter (fun t => sql_eq (Thread.id t) id) (threads d)))
      by (apply filter_In; auto).
    rewrite sql_eq_sym, (Hkeep t) in E by assumption. discriminate.
  - rewrite Forall_forall in *. intros m Hm. apply filter_In in Hm. apply Hr, Hm.
  - apply StronglySorted_filter. assumption.
  - apply StronglySorted_filter. assumption.
Qed.
End StoreFacts.

(** ** Timestamps, while the clock does not step back *)

Section ClockFacts.
Import Store Inv.

Lemma empty_timely now : Timely now empty.
Proof. split; simpl; try constructor. intros m t []. Qed.

Lemma timely_later now now' d : now <= now' -> Timely now d -> Timely now' d.
Proof.
  intros Hle [Ht Hm Hc Hr]. split; auto.
  - revert Ht. apply Forall_impl. intros; lia.
  - revert Hm. apply Forall_impl. intros; lia.
Qed.

Lemma insert_thread_timely now now' id title d d' :
  insert_thread now' id title d = inr d' -> now <= now' ->
  Timely now d -> Timely now' d'.
Proof.
  unfold insert_thread. destruct (thread_exists id d); [discriminate|].
  intros [= <-] Hle [Ht Hm Hc Hr]. split; simpl; auto.
  - apply Forall_app. split.
    + revert Ht. apply Forall_impl. intros; lia.
    + constructor; [simpl; lia|constructor].
  - revert Hm. apply Forall_impl. intros; lia.
  - intros m t Hin Hth E. apply in_app_or in Hth as [Hth|[<-|[]]]; [eauto|].
    simpl. rewrite Forall_forall in Hm. specialize (Hm m Hin). lia.
Qed.

(** The two statements of [appendMessage] together: the [INSERT] at [t1],
    the [UPDATE] at [t2]. *)
Lemma append_timely now t1 t2 tid role content d d' :
  insert_message t1 (Some tid) role content d = inr d' ->
  now <= t1 -> t1 <= t2 ->
  Timely now d -> Timely t2 (update_updated_at t2 (Some tid) d').
Proof.
  unfold insert_message. destruct (new_rowid d) as [rowid|]; [|discriminate].
  destruct (thread_exists (Some tid) d); [|discriminate].
  intros [= <-] H1 H2 [Ht Hm Hc Hr]. split; simpl.
  - rewrite Forall_map. revert Ht. apply Forall_impl. intros t Hle.
    destruct (sql_eq (Thread.id t) (Some tid)); simpl; lia.
  - apply Forall_app. split.
    + revert Hm. apply Forall_impl. intros; lia.
    + constructor; [simpl; lia|constructor].
  - apply StronglySorted_snoc; [assumption|].
    revert Hm. apply Forall_impl. unfold created_le; simpl. intros; lia.
  - intros m t' Hin Hth E. apply in_map_iff in Hth as (t & <- & Hth).
    rewrite Forall_forall in Hm.
    destruct (sql_eq (Thread.id t) (Some tid)) eqn:Et.
    + apply in_app_or in Hin as [Hin|[<-|[]]]; [specialize (Hm m Hin)|]; simpl; lia.
    + apply in_app_or in Hin as [Hin|[<-|[]]]; [eauto|].
      change (sql_eq (Some tid) (Thread.id t) = true) in E.
      rewrite sql_eq_sym, Et in E. discriminate.
Qed.

Lemma update_title_timely now title id d :
  Timely now d -> Timely now (update_title title id d).
Proof.
  intros [Ht Hm Hc Hr]. split; simpl; auto.
  - rewrite Forall_map. revert Ht. apply Forall_impl. intros t Hle.
    destruct (sql_eq (Thread.id t) id); simpl; lia.
  - intros m t' Hin Hth E. apply in_map_iff in Hth as (t & <- & Hth).
    specialize (Hr m t Hin Hth).
    destruct (sql_eq (Thread.id t) id); simpl in *; auto.
Qed.

Lemma delete_thread_timely now id d :
  Timely now d -> Timely now (delete_thread id d).
Proof.
  intros [Ht Hm Hc Hr]. split; simpl.
  - rewrite Forall_forall in *. intros t H. apply filter_In in H. apply Ht, H.
  - rewrite Forall_forall in *. intros m H. apply filter_In in H. apply Hm, H.
  - apply StronglySorted_filter. assumption.
  - intros m t Hin Hth. apply filter_In in Hin. apply filter_In in Hth.
    apply Hr; [apply Hin|apply Hth].
Qed.
End ClockFacts.

(** ** Every state the server reaches *)

Section Reachable.
Import Store Inv.
Variable clock : nat -> Timestamp.

Lemma serve_app (rs rs' : list Request) (w : World) :
  serve clock (rs ++ rs') w = serve clock rs' (serve clock rs w).
Proof. unfold serve. apply fold_left_app. Qed.

Lemma serve_cons (r : Request) (rs : list Request) (w : World) :
  serve clock (r :: rs) w = serve clock rs (snd (handle clock r w)).
Proof. reflexivity. Qed.

Lemma handle_consistent (r : Request) (w : World) :
  Consistent (db w) -> Consistent (db (snd (handle clock r w))).
Proof.
  intros C. destruct r as [|id title|tid|tid role content|tid|tid title]; simpl; auto.
  - unfold createThread; simpl.
    destruct (insert_thread _ _ _ _) as [e|d'] eqn:E; simpl; [assumption|].
    eapply insert_thread_consistent; eassumption.
  - unfold appendMessage; simpl.
    destruct (insert_message _ _ _ _ _) as [e|d'] eqn:E; simpl; [assumption|].
    apply update_updated_at_consistent.
    eapply insert_message_consistent; eassumption.
  - apply delete_thread_consistent; assumption.
  - apply update_title_consistent; assumption.
Qed.

Lemma serve_consistent (rs : list Request) (w : World) :
  Consistent (db w) -> Consistent (db (serve clock rs w)).
Proof.
  revert w. induction rs as [|r rs IH]; intros w C; [exact C|].
  rewrite serve_cons. apply IH, handle_consistent, C.
Qed.

Lemma reachable_consistent (rs : list Request) :
  Consistent (db (serve clock rs boot)).
Proof. apply serve_consistent, empty_consistent. Qed.

Lemma handle_tick (r : Request) (w : World) :
  (tick w <= tick (snd (handle clock r w)))%nat.
Proof.
  destruct r; simpl; auto.
  - unfold createThread; simpl. destruct (insert_thread _ _ _ _); simpl; lia.
  - unfold appendMessage; simpl. destruct (insert_message _ _ _ _ _); simpl; lia.
Qed.

Hypothesis clock_monotone : monotone clock.

Lemma clock_le (n m : nat) : (n <= m)%nat -> clock n <= clock m.
Proof.
  induction 1 as [|m _ IH]; [lia|].
  specialize (clock_monotone m). lia.
Qed.

Lemma handle_timely (r : Request) (w : World) :
  Timely (clock (tick w)) (db w) ->
  Timely (clock (tick (snd (handle clock r w)))) (db (snd (handle clock r w))).
Proof.
  intros T. pose proof (clock_monotone (tick w)) as H1.
  pose proof (clock_monotone (S (tick w))) as H2.
  destruct r as [|id title|tid|tid role content|tid|tid title]; simpl; auto.
  - unfold createThread; simpl.
    destruct (insert_thread _ _ _ _) as [e|d'] eqn:E; simpl.
    + eapply timely_later; eassumption.
    + apply timely_later with (now := clock (tick w)); [assumption|].
      eapply insert_thread_timely; [eassumption| |eassumption]. lia.
  - unfold appendMessage; simpl.
    destruct (insert_message _ _ _ _ _) as [e|d'] eqn:E; simpl.
    + eapply timely_later; eassumption.
    + apply timely_later with (now := clock (S (tick w))); [assumption|].
      eapply append_timely; [eassumption| | |eassumption]; lia.
  - apply delete_thread_timely; assumption.
  - apply update_title_timely; assumption.
Qed.

Lemma serve_timely (rs : list Request) (w : World) :
  Timely (clock (tick w)) (db w) ->
  Timely (clock (tick (serve clock rs w))) (db (serve clock rs w)).
Proof.
  revert w. induction rs as [|r rs IH]; intros w T; [exact T|].
  rewrite serve_cons. apply IH, handle_timely, T.
Qed.

Lemma reachable_timely (rs : list Request) :
  Timely (clock (tick (serve clock rs boot))) (db (serve clock rs boot)).
Proof. apply serve_timely, empty_timely. Qed.

(** With timestamps in table order, the sorter returns the scan. *)
Lemma select_messages_scan (now : Timestamp) (id : Text) (d : Db) :
  Timely now d ->
  select_messages id d = filter (fun m => sql_eq (Message.thread_id m) id) (messages d).
Proof.
  intros T. unfold select_messages. apply order_by_sorted.
  apply StronglySorted_filter.
  eapply StronglySorted_weaken; [|exact (t_chronological _ _ T)].
  unfold created_le. intros a b H. apply Z.leb_le. exact H.
Qed.
End Reachable.

(** ** What each route does to the database *)

Section RouteFacts.
Import Store Inv.
Variable clock : nat -> Timestamp.

Lemma delete_thread_absent (id : Text) (d : Db) :
  thread_exists id d = false -> delete_thread id d = d.
Proof.
  unfold thread_exists. rewrite existsb_false_iff. intros H.
  unfold delete_thread. rewrite (filter_none _ _ H). simpl.
  rewrite !filter_all; [destruct d; reflexivity|reflexivity|].
  intros t Ht. now rewrite (H t Ht).
Qed.

Lemma delete_thread_gone (id : Text) (d : Db) :
  thread_exists id (delete_thread id d) = false.
Proof.
  unfold thread_exists, delete_thread; simpl. apply existsb_false_iff.
  intros t Ht. apply filter_In in Ht as [_ Ht]. now apply negb_true_iff.
Qed.

(** After the cascade no row carries the deleted key, provided no row was
    an orphan before. *)
Lemma delete_thread_cascade (tid : string) (d : Db) :
  orphan_free d ->
  Forall (fun m => Message.thread_id m <> Some tid)
         (messages (delete_thread (Some tid) d)).
Proof.
  intros Ho. unfold orphan_free in Ho. rewrite Forall_forall in *.
  intros m Hm E. simpl in Hm. apply filter_In in Hm as [Hm Hkeep].
  apply negb_true_iff in Hkeep. rewrite existsb_false_iff in Hkeep.
  specialize (Ho m Hm). apply thread_exists_In in Ho as (t & Ht & Et).
  rewrite E in Et. 
  assert (Hdel : In t (filter (fun t => sql_eq (Thread.id t) (Some tid)) (threads d)))
    by (apply filter_In; auto).
  specialize (Hkeep t Hdel). rewrite E, sql_eq_sym, Et in Hkeep. discriminate.
Qed.

Lemma select_messages_none (id : Text) (d : Db) :
  Forall (fun m => sql_eq (Message.thread_id m) id = false) (messages d) ->
  select_messages id d = [].
Proof.
  intros H. unfold select_messages. rewrite filter_none; [reflexivity|].
  apply Forall_forall. exact H.
Qed.

(** Without the thread, and without orphans, no row matches. *)
Lemma select_messages_absent (id : Text) (d : Db) :
  orphan_free d -> thread_exists id d = false -> select_messages id d = [].
Proof.
  intros Ho Ha. apply select_messages_none.
  unfold orphan_free in Ho. rewrite Forall_forall in *. intros m Hm.
  destruct (sql_eq (Message.thread_id m) id) eqn:E; [|reflexivity].
  specialize (Ho m Hm). apply thread_exists_In in Ho as (t & Ht & Et).
  unfold thread_exists in Ha. rewrite existsb_false_iff in Ha.
  rewrite (sql_eq_trans _ _ id Et), (Ha t Ht) in E. discriminate.
Qed.

(** The route appends exactly one row when a rowid is left and the thread
    exists ... *)
Lemma appendMessage_ok tid role content w rowid :
  new_rowid (db w) = Some rowid ->
  thread_exists (Some tid) (db w) = true ->
  appendMessage clock tid role content w =
    (JsonSuccess,
     mkWorld (update_updated_at (clock (S (tick w))) (Some tid)
                (mkDb (threads (db w))
                      (messages (db w) ++
                         [Message.mk rowid (Some tid) role content (clock (tick w))])
                      rowid))
             (S (S (tick w)))).
Proof.
  intros Hn He. unfold appendMessage, insert_message; simpl. now rewrite Hn, He.
Qed.

(** ... and otherwise throws, with the database untouched. *)
Lemma appendMessage_throws tid role content w :
  new_rowid (db w) = None \/ thread_exists (Some tid) (db w) = false ->
  appendMessage clock tid role content w =
    (Status500 (match new_rowid (db w) with
                | None => SQLITE_FULL
                | Some _ => SQLITE_CONSTRAINT_FOREIGNKEY
                end),
     mkWorld (db w) (S (tick w))).
Proof.
  unfold appendMessage, insert_message; simpl.
  destruct (new_rowid (db w)); [|reflexivity].
  intros [H|H]; [discriminate|]. now rewrite H.
Qed.

Lemma update_title_absent (title : Text) (id : Text) (d : Db) :
  thread_exists id d = false -> update_title title id d = d.
Proof.
  unfold thread_exists. rewrite existsb_false_iff. intros H.
  unfold update_title. destruct d as [ts ms q]; simpl in *. f_equal.
  rewrite <- (map_id ts) at 2. apply map_ext_in.
  intros t Ht. now rewrite (H t Ht).
Qed.

Lemma update_title_again (title : Text) (id : Text) (d : Db) :
  update_title title id (update_title title id d) = update_title title id d.
Proof.
  unfold update_title; simpl. f_equal. rewrite map_map. apply map_ext.
  intros t. destruct (sql_eq (Thread.id t) id) eqn:E; simpl; now rewrite E.
Qed.
End RouteFacts.

(* ================================================================== *)
(** * The claims *)

Open Scope string_scope.
Open Scope list_scope.
Open Scope Z_scope.

(** C10: [deleteThread] on an id that names no thread answers success and
    leaves the whole store (threads, messages, sequence) as it was; deleting
    the same id twice gives the state that deleting it once gives. *)
Theorem deleteThread_absent_is_noop (tid : string) (w : World) :
  (Store.thread_exists (Some tid) (db w) = false ->
   deleteThread tid w = (JsonSuccess, w)) /\
  deleteThread tid (snd (deleteThread tid w)) = deleteThread tid w.
Proof.
  split.
  - intros H. unfold deleteThread. rewrite delete_thread_absent by exact H.
    destruct w; reflexivity.
  - unfold deleteThread; simpl.
    rewrite (delete_thread_absent _ (Store.delete_thread (Some tid) (db w)));
      [reflexivity|apply delete_thread_gone].
Qed.

Lemma deleteThread_absent_is_noop_witness :
  deleteThread "T3" boot = (JsonSuccess, boot).
Proof.
  apply (proj1 (deleteThread_absent_is_noop "T3" boot)). reflexivity.
Defined.

(** C1: in every state the server reaches no message is an orphan, and
    after [deleteThread(id)] no message row with [thread_id = id] is left. *)
Theorem deleteThread_removes_messages (clock : nat -> Timestamp)
        (rs : list Request) (tid : string) :
  Forall (fun m => Message.thread_id m <> Some tid)
         (Store.messages (db (snd (deleteThread tid (serve clock rs boot))))) /\
  Inv.orphan_free (db (serve clock rs boot)) /\
  Inv.orphan_free (db (snd (deleteThread tid (serve clock rs boot)))).
Proof.
  pose proof (reachable_consistent clock rs) as C.
  split; [|split].
  - apply delete_thread_cascade, C.
  - apply C.
  - apply (Inv.c_orphans _ (delete_thread_consistent (Some tid) _ C)).
Qed.

(** C3: [appendMessage] on a thread id that does not exist fails, with the
    foreign-key violation whenever a rowid could be allocated, and the
    database is exactly what it was. *)
Theorem appendMessage_unknown_thread_fails (clock : nat -> Timestamp)
        (tid : string) (role content : Text) (w : World) :
  Store.thread_exists (Some tid) (db w) = false ->
  (exists e, fst (appendMessage clock tid role content w) = Status500 e) /\
  db (snd (appendMessage clock tid role content w)) = db w /\
  (Store.new_rowid (db w) <> None ->
   fst (appendMessage clock tid role content w) = Status500 SQLITE_CONSTRAINT_FOREIGNKEY).
Proof.
  intros H. rewrite appendMessage_throws by (right; exact H). simpl.
  split; [eauto|]. split; [reflexivity|].
  destruct (Store.new_rowid (db w)); [reflexivity|congruence].
Qed.

Lemma appendMessage_unknown_thread_fails_witness :
  fst (appendMessage wall_clock "T9" (Some "user") (Some "Hello") boot)
    = Status500 SQLITE_CONSTRAINT_FOREIGNKEY /\
  db (snd (appendMessage wall_clock "T9" (Some "user") (Some "Hello") boot)) = Store.empty.
Proof.
  destruct (appendMessage_unknown_thread_fails wall_clock "T9" (Some "user") (Some "Hello")
              boot eq_refl) as (_ & Hdb & Hfk).
  split; [apply Hfk; discriminate|exact Hdb].
Defined.

(** C8, as the code has it: the store does not restrict the role to
    [user] and [model].  For a request that reaches the handler with a role
    that is a JSON string or [null], on an existing thread with a rowid left,
    [appendMessage] answers success and the new row carries that role
    unchanged. *)
Theorem appendMessage_stores_any_role (clock : nat -> Timestamp)
        (tid : string) (role content : Text) (w : World) (rowid : Z) :
  Store.new_rowid (db w) = Some rowid ->
  Store.thread_exists (Some tid) (db w) = true ->
  fst (appendMessage clock tid role content w) = JsonSuccess /\
  Store.messages (db (snd (appendMessage clock tid role content w))) =
    Store.messages (db w) ++
      [Message.mk rowid (Some tid) role content (clock (tick w))].
Proof.
  intros Hn He. rewrite (appendMessage_ok clock _ _ _ _ _ Hn He). split; reflexivity.
Qed.

Lemma appendMessage_stores_any_role_witness :
  let w := serve wall_clock [PostThread (Some "T1") (Some "Test")] boot in
  fst (appendMessage wall_clock "T1" None (Some "Hello") w) = JsonSuccess /\
  Store.messages (db (snd (appendMessage wall_clock "T1" None (Some "Hello") w))) =
    [Message.mk 1 (Some "T1") None (Some "Hello") 1700000001].
Proof.
  exact (appendMessage_stores_any_role wall_clock "T1" None (Some "Hello")
           (serve wall_clock [PostThread (Some "T1") (Some "Test")] boot) 1
           eq_refl eq_refl).
Defined.

(** C8 fails as stated: a message with role ["system"] is accepted and
    stored. *)
Lemma role_system_is_accepted :
  let w := serve wall_clock [PostThread (Some "T1") (Some "Test")] boot in
  fst (appendMessage wall_clock "T1" (Some "system") (Some "Hello") w) = JsonSuccess /\
  map Message.role
      (Store.messages (db (snd (appendMessage wall_clock "T1" (Some "system") (Some "Hello") w))))
    = [Some "system"] /\
  "system" <> "user" /\ "system" <> "model".
Proof. repeat split; try reflexivity; discriminate. Qed.

(** C7, as the code has it: [renameThread] performs no validation and
    answers success for every title that reaches it (a string, empty or blank
    included, or [NULL]).  The table keeps its rows in their order; the rows
    with that id, and only they, get exactly that title; timestamps, messages
    and the sequence stay.  With such a thread in the table it is there
    afterwards under the new title; with none nothing changes at all; renaming
    twice gives what renaming once gives. *)
Theorem renameThread_never_fails (tid : string) (title : Text) (w : World) :
  fst (renameThread tid title w) = JsonSuccess /\
  Store.threads (db (snd (renameThread tid title w))) =
    map (fun t => if sql_eq (Thread.id t) (Some tid)
                  then Thread.mk (Thread.id t) title
                                 (Thread.created_at t) (Thread.updated_at t)
                  else t)
        (Store.threads (db w)) /\
  Store.messages (db (snd (renameThread tid title w))) = Store.messages (db w) /\
  Store.sqlite_sequence (db (snd (renameThread tid title w))) =
    Store.sqlite_sequence (db w) /\
  tick (snd (renameThread tid title w)) = tick w /\
  (forall t, In t (Store.threads (db (snd (renameThread tid title w)))) ->
             Thread.id t = Some tid -> Thread.title t = title) /\
  (Store.thread_exists (Some tid) (db w) = true ->
   exists t, In t (Store.threads (db (snd (renameThread tid title w)))) /\
             Thread.id t = Some tid /\ Thread.title t = title) /\
  (Store.thread_exists (Some tid) (db w) = false -> snd (renameThread tid title w) = w) /\
  renameThread tid title (snd (renameThread tid title w)) = renameThread tid title w.
Proof.
  split; [reflexivity|]. split; [reflexivity|]. split; [reflexivity|].
  split; [reflexivity|]. split; [reflexivity|]. split; [|split; [|split]].
  - simpl. intros t' Ht E. apply in_map_iff in Ht as (t & <- & _).
    destruct (sql_eq (Thread.id t) (Some tid)) eqn:Et; [reflexivity|].
    simpl in E. apply sql_eq_Some in E. congruence.
  - intros H. apply thread_exists_In in H as (t & Ht & E).
    exists (Thread.mk (Thread.id t) title (Thread.created_at t) (Thread.updated_at t)).
    split; [|split; [simpl; now apply sql_eq_Some|reflexivity]].
    simpl. apply in_map_iff. exists t. now rewrite E.
  - intros H. simpl. rewrite update_title_absent by exact H. destruct w; reflexivity.
  - unfold renameThread; simpl. now rewrite update_title_again.
Qed.

Lemma renameThread_never_fails_witness :
  let w := serve wall_clock
             [PostThread (Some "T1") (Some "One"); PostThread (Some "T2") (Some "Two");
              PostMessage "T1" (Some "user") (Some "Hello")] boot in
  (exists t, In t (Store.threads (db (snd (renameThread "T1" (Some "   ") w)))) /\
             Thread.id t = Some "T1" /\ Thread.title t = Some "   ") /\
  snd (renameThread "T9" (Some "Renamed") w) = w.
Proof.
  intros w. split.
  - apply (renameThread_never_fails "T1" (Some "   ") w). reflexivity.
  - apply (renameThread_never_fails "T9" (Some "Renamed") w). reflexivity.
Defined.

(** C7 fails as stated: a title that is blank after trimming is accepted
    and written, and renaming a thread that does not exist answers success. *)
Lemma rename_blank_or_absent_succeeds :
  let w := serve wall_clock [PostThread (Some "T1") (Some "Test")] boot in
  Js.trim "   " = "" /\
  fst (renameThread "T1" (Some "   ") w) = JsonSuccess /\
  map Thread.title (Store.threads (db (snd (renameThread "T1" (Some "   ") w))))
    = [Some "   "] /\
  Store.thread_exists (Some "T9") (db w) = false /\
  fst (renameThread "T9" (Some "Renamed") w) = JsonSuccess.
Proof. repeat split; reflexivity. Qed.

(** C9, as the code has it: [listMessages] never fails.  It answers
    exactly the stored rows whose [thread_id] is the id, each once, ordered by
    [created_at] and then by id, and leaves the server as it was.  That is the
    empty list when no row carries the id; in a state the server reaches this
    is the case for an id that names no thread, and for an id that was just
    deleted. *)
Theorem listMessages_never_fails (clock : nat -> Timestamp)
        (rs : list Request) (tid : string) :
  let w := serve clock rs boot in
  (exists rows,
      listMessages tid w = (JsonMessages rows, w) /\
      Permutation rows
        (filter (fun m => sql_eq (Message.thread_id m) (Some tid)) (Store.messages (db w))) /\
      (forall m, In m rows <->
                 In m (Store.messages (db w)) /\ Message.thread_id m = Some tid) /\
      StronglySorted Inv.created_then_id rows) /\
  (Forall (fun m => sql_eq (Message.thread_id m) (Some tid) = false)
          (Store.messages (db w)) ->
   listMessages tid w = (JsonMessages [], w)) /\
  (Store.thread_exists (Some tid) (db w) = false ->
   listMessages tid w = (JsonMessages [], w)) /\
  fst (listMessages tid (snd (deleteThread tid w))) = JsonMessages [].
Proof.
  intros w. pose proof (reachable_consistent clock rs) as C. fold w in C.
  unfold listMessages. split; [|split; [|split]].
  - exists (Store.select_messages (Some tid) (db w)). split; [reflexivity|].
    split; [apply order_by_perm|]. split.
    + intros m. unfold Store.select_messages. rewrite order_by_In, filter_In.
      now rewrite sql_eq_Some.
    + apply order_by_stable, StronglySorted_filter, C.
  - intros H. now rewrite select_messages_none.
  - intros H. rewrite select_messages_absent; [reflexivity|apply C|exact H].
  - simpl. rewrite select_messages_absent; [reflexivity| |apply delete_thread_gone].
    apply (Inv.c_orphans _ (delete_thread_consistent (Some tid) _ C)).
Qed.

Lemma listMessages_never_fails_witness :
  let w := serve wall_clock
             [PostThread (Some "T1") (Some "Test");
              PostMessage "T1" (Some "user") (Some "Hello")] boot in
  listMessages "T1" w =
    (JsonMessages [Message.mk 1 (Some "T1") (Some "user") (Some "Hello") 1700000001], w) /\
  listMessages "T3" w = (JsonMessages [], w).
Proof.
  intros w.
  destruct (listMessages_never_fails wall_clock
              [PostThread (Some "T1") (Some "Test");
               PostMessage "T1" (Some "user") (Some "Hello")] "T3") as (_ & _ & H & _).
  split; [reflexivity|apply H; reflexivity].
Defined.

(** C9 fails as stated: listing the messages of a thread that does not
    exist, or of a thread that was deleted, answers the empty list and not an
    error. *)
Lemma listMessages_of_missing_thread_succeeds :
  Store.thread_exists (Some "T3") (db boot) = false /\
  fst (listMessages "T3" boot) = JsonMessages [] /\
  let w := serve wall_clock
             [PostThread (Some "T3") (Some "Test");
              PostMessage "T3" (Some "user") (Some "Hello");
              DeleteThread "T3"] boot in
  Store.thread_exists (Some "T3") (db w) = false /\
  fst (listMessages "T3" w) = JsonMessages [].
Proof. repeat split; reflexivity. Qed.

(** ** [updated_at] along a run *)

Section Recency.
Import Store Inv.
Variable clock : nat -> Timestamp.
Hypothesis clock_monotone : monotone clock.

(** A thread row after one request is a row that was there, with
    [updated_at] no smaller, or it was written at this request. *)
Lemma handle_updated_at (r : Request) (w : World) (t' : Thread.t) :
  In t' (threads (db (snd (handle clock r w)))) ->
  (exists t, In t (threads (db w)) /\ Thread.id t = Thread.id t' /\
             Thread.updated_at t <= Thread.updated_at t') \/
  clock (tick w) <= Thread.updated_at t'.
Proof.
  pose proof (clock_monotone (tick w)) as Hc.
  destruct r as [|id title|tid|tid role content|tid|tid title]; simpl.
  - intros H. left. exists t'. repeat split; auto; lia.
  - unfold createThread, insert_thread; simpl.
    destruct (thread_exists id (db w)); simpl.
    + intros H. left. exists t'. repeat split; auto; lia.
    + intros H. apply in_app_or in H as [H|[<-|[]]].
      * left. exists t'. repeat split; auto; lia.
      * right. simpl. lia.
  - intros H. left. exists t'. repeat split; auto; lia.
  - unfold appendMessage, insert_message; simpl.
    destruct (new_rowid (db w)); simpl.
    2:{ intros H. left. exists t'. repeat split; auto; lia. }
    destruct (thread_exists (Some tid) (db w)); simpl.
    2:{ intros H. left. exists t'. repeat split; auto; lia. }
    intros H. apply in_map_iff in H as (t & <- & H).
    destruct (sql_eq (Thread.id t) (Some tid)).
    + right. simpl. lia.
    + left. exists t. repeat split; auto; lia.
  - intros H. apply filter_In in H as [H _].
    left. exists t'. repeat split; auto; lia.
  - intros H. apply in_map_iff in H as (t & <- & H).
    left. exists t. destruct (sql_eq (Thread.id t) (Some tid)); simpl; repeat split; auto; lia.
Qed.

Lemma serve_updated_at (rs : list Request) (w : World) (t' : Thread.t) :
  In t' (threads (db (serve clock rs w))) ->
  (exists t, In t (threads (db w)) /\ Thread.id t = Thread.id t' /\
             Thread.updated_at t <= Thread.updated_at t') \/
  clock (tick w) <= Thread.updated_at t'.
Proof.
  revert w. induction rs as [|r rs IH]; intros w H.
  - left. exists t'. repeat split; auto; lia.
  - rewrite serve_cons in H. apply IH in H as [(t1 & H1 & E1 & L1)|H].
    + apply handle_updated_at in H1 as [(t & H0 & E0 & L0)|H1].
      * left. exists t. repeat split; [assumption|congruence|lia].
      * right. lia.
    + right. pose proof (clock_le clock clock_monotone _ _ (handle_tick clock r w)). lia.
Qed.

Lemma updated_at_of_Some (tid : string) (d : Db) (u : Timestamp) :
  updated_at_of tid d = Some u ->
  exists t, In t (threads d) /\ Thread.id t = Some tid /\ Thread.updated_at t = u.
Proof.
  unfold updated_at_of.
  destruct (find _ (threads d)) as [t|] eqn:E; simpl; [|discriminate].
  intros [= <-]. apply find_some in E as [Hin Hid].
  exists t. repeat split; [assumption|]. now apply sql_eq_Some.
Qed.
End Recency.

(** C5 fails as stated: with a clock that is set back between the [INSERT]
    and the [UPDATE] of an [appendMessage], the server reaches a state where
    the [updated_at] of a thread is below the [created_at] of its only
    message. *)
Lemma set_back_clock_breaks_recency :
  let w := serve set_back_clock
             [PostThread (Some "T1") (Some "Test");
              PostMessage "T1" (Some "user") (Some "Hello")] boot in
  Inv.updated_at_of "T1" (db w) = Some 1700000002 /\
  fst (listMessages "T1" w) =
    JsonMessages [Message.mk 1 (Some "T1") (Some "user") (Some "Hello") 1700000100] /\
  1700000002 < 1700000100.
Proof. repeat split; reflexivity. Qed.

(** C5, as the code has it: while the clock does not step back, in every
    state the server reaches the [updated_at] of a thread is at least the [created_at] of each
    of its messages, the most recent one included, and along any further
    requests (appends, renames and all others) the [updated_at] of a thread id
    never decreases. *)
Theorem updated_at_covers_messages (clock : nat -> Timestamp)
        (rs rs' : list Request) (tid : string) :
  monotone clock ->
  (forall u m,
      Inv.updated_at_of tid (db (serve clock rs boot)) = Some u ->
      In m (Store.select_messages (Some tid) (db (serve clock rs boot))) ->
      Message.created_at m <= u) /\
  (forall u u',
      Inv.updated_at_of tid (db (serve clock rs boot)) = Some u ->
      Inv.updated_at_of tid (db (serve clock (rs ++ rs') boot)) = Some u' ->
      u <= u').
Proof.
  intros Hmono.
  pose proof (reachable_consistent clock rs) as C.
  pose proof (reachable_timely clock Hmono rs) as T.
  split.
  - intros u m Hu Hm. apply updated_at_of_Some in Hu as (t & Ht & Eid & <-).
    unfold Store.select_messages in Hm. apply order_by_In in Hm.
    apply filter_In in Hm as [Hm E].
    apply (Inv.t_recency _ _ T m t Hm Ht).
    rewrite Eid. exact E.
  - intros u u' Hu Hu'. rewrite serve_app in Hu'.
    apply updated_at_of_Some in Hu as (t & Ht & Eid & <-).
    apply updated_at_of_Some in Hu' as (t' & Ht' & Eid' & <-).
    apply (serve_updated_at clock Hmono) in Ht' as [(t0 & H0 & E0 & L0)|Hlate].
    + assert (t0 = t) as ->; [|exact L0].
      apply (primary_key_unique _ _ _ (Inv.c_primary_key _ C) H0 Ht).
      rewrite E0, Eid', Eid. apply sql_eq_refl.
    + pose proof (Inv.t_threads _ _ T) as Hb. rewrite Forall_forall in Hb.
      specialize (Hb t Ht). lia.
Qed.

Lemma updated_at_covers_messages_witness :
  let rs := [PostThread (Some "T1") (Some "Test");
             PostMessage "T1" (Some "user") (Some "Hello")] in
  let rs' := [PatchThread "T1" (Some "Renamed");
              PostMessage "T1" (Some "model") (Some "Hi there")] in
  (forall u m,
      Inv.updated_at_of "T1" (db (serve wall_clock rs boot)) = Some u ->
      In m (Store.select_messages (Some "T1") (db (serve wall_clock rs boot))) ->
      Message.created_at m <= u) /\
  (forall u u',
      Inv.updated_at_of "T1" (db (serve wall_clock rs boot)) = Some u ->
      Inv.updated_at_of "T1" (db (serve wall_clock (rs ++ rs') boot)) = Some u' ->
      u <= u').
Proof.
  intros rs rs'. apply (updated_at_covers_messages wall_clock rs rs' "T1").
  intros n. unfold wall_clock. lia.
Defined.

(** ** A run of appends on one thread *)

Section AppendRun.
Import Store Inv.
Variable clock : nat -> Timestamp.
Variable tid : string.

Lemma appendAll_cons (c : Text * Text) (calls : list (Text * Text)) (w : World) :
  appendAll clock tid (c :: calls) w =
  appendAll clock tid calls (snd (appendMessage clock tid (fst c) (snd c) w)).
Proof. reflexivity. Qed.

Lemma appendAll_serve (rs : list Request) (calls : list (Text * Text)) :
  appendAll clock tid calls (serve clock rs boot) =
  serve clock (rs ++ map (fun c => PostMessage tid (fst c) (snd c)) calls) boot.
Proof. unfold appendAll. now rewrite serve_app. Qed.

(** The table grows by one row per accepted call, in call order. *)
Lemma appendAll_rows (calls : list (Text * Text)) (w : World) :
  exists news,
    messages (db (appendAll clock tid calls w)) = messages (db w) ++ news /\
    Forall (fun m => Message.thread_id m = Some tid) news /\
    map role_content news = accepted clock tid calls w.
Proof.
  revert w. induction calls as [|[role content] calls IH]; intros w.
  - exists []. simpl. rewrite app_nil_r. auto.
  - rewrite appendAll_cons. simpl fst; simpl snd.
    cbn [accepted fst snd].
    destruct (new_rowid (db w)) as [rowid|] eqn:En.
    + destruct (thread_exists (Some tid) (db w)) eqn:Ex.
      * rewrite (appendMessage_ok clock _ _ _ _ _ En Ex).
        match goal with |- context [appendAll clock tid calls (snd (_, ?w1))] =>
          destruct (IH w1) as (news & Hrows & Hall & Hacc) end.
        cbn [snd] in *. simpl in Hrows.
        eexists (_ :: news). rewrite Hrows, <- app_assoc. split; [reflexivity|].
        split; [constructor; [reflexivity|exact Hall]|].
        simpl. now rewrite Hacc.
      * rewrite appendMessage_throws by (right; exact Ex).
        match goal with |- context [appendAll clock tid calls (snd (_, ?w1))] =>
          destruct (IH w1) as (news & Hrows & Hall & Hacc) end.
        cbn [snd] in *. exists news. auto.
    + rewrite appendMessage_throws by (left; exact En).
      match goal with |- context [appendAll clock tid calls (snd (_, ?w1))] =>
        destruct (IH w1) as (news & Hrows & Hall & Hacc) end.
      cbn [snd] in *. exists news. auto.
Qed.

(** With the thread there and rowids to spare, every call is accepted. *)
Lemma accepted_all (calls : list (Text * Text)) (w : World) :
  Consistent (db w) ->
  thread_exists (Some tid) (db w) = true ->
  sqlite_sequence (db w) + Z.of_nat (List.length calls) <= MAX_ROWID ->
  accepted clock tid calls w = calls.
Proof.
  revert w. induction calls as [|[role content] calls IH]; intros w C Ex Hq;
    [reflexivity|].
  cbn [accepted fst snd]. cbn [List.length] in Hq.
  assert (Hn : new_rowid (db w) = Some (sqlite_sequence (db w) + 1))
    by (apply new_rowid_available; [assumption|lia]).
  pose proof (handle_consistent clock (PostMessage tid role content) w C) as C'.
  simpl in C'. rewrite (appendMessage_ok clock _ _ _ _ _ Hn Ex) in *.
  cbn [snd] in C'. f_equal. apply IH; [exact C'| |simpl; lia].
  simpl. unfold update_updated_at.
  rewrite (thread_exists_same_keys _ (mkDb (threads (db w)) _ _)).
  - exact Ex.
  - intros t. destruct (sql_eq _ _); reflexivity.
Qed.
End AppendRun.

(** The rows of a thread along a run of appends. *)
Lemma select_messages_in_call_order (clock : nat -> Timestamp)
        (rs : list Request) (tid : string) (calls : list (Text * Text)) :
  let w0 := serve clock rs boot in
  let w1 := appendAll clock tid calls w0 in
  StronglySorted Inv.created_then_id (Store.select_messages (Some tid) (db w1)) /\
  (monotone clock ->
   (exists news,
       Store.select_messages (Some tid) (db w1) =
         Store.select_messages (Some tid) (db w0) ++ news /\
       map role_content news = accepted clock tid calls w0) /\
   (Store.select_messages (Some tid) (db w0) = [] ->
    map role_content (Store.select_messages (Some tid) (db w1)) =
      accepted clock tid calls w0) /\
   StronglySorted Inv.id_lt (Store.select_messages (Some tid) (db w1)) /\
   (Store.thread_exists (Some tid) (db w0) = true ->
    Store.sqlite_sequence (db w0) + Z.of_nat (List.length calls) <= Store.MAX_ROWID ->
    accepted clock tid calls w0 = calls)).
Proof.
  intros w0 w1.
  pose proof (reachable_consistent clock rs) as C0. fold w0 in C0.
  assert (C1 : Inv.Consistent (db w1)).
  { unfold w1, w0. rewrite appendAll_serve. apply reachable_consistent. }
  split.
  - apply order_by_stable, StronglySorted_filter, C1.
  - intros Hmono.
    pose proof (reachable_timely clock Hmono rs) as T0. fold w0 in T0.
    assert (T1 : Inv.Timely (clock (tick w1)) (db w1)).
    { unfold w1, w0. rewrite appendAll_serve. apply reachable_timely, Hmono. }
    rewrite (select_messages_scan _ _ _ T1), (select_messages_scan _ _ _ T0).
    assert (Hext : exists news,
               filter (fun m => sql_eq (Message.thread_id m) (Some tid))
                      (Store.messages (db w1)) =
               filter (fun m => sql_eq (Message.thread_id m) (Some tid))
                      (Store.messages (db w0)) ++ news /\
               map role_content news = accepted clock tid calls w0).
    { destruct (appendAll_rows clock tid calls w0) as (news & Hrows & Hall & Hacc).
      fold w1 in Hrows. exists news. split; [|exact Hacc].
      rewrite Hrows, filter_app. f_equal. apply filter_all.
      rewrite Forall_forall in Hall. intros m Hm.
      rewrite (Hall m Hm). apply sql_eq_refl. }
    split; [exact Hext|]. split; [|split].
    + intros Hnone. destruct Hext as (news & -> & <-). now rewrite Hnone.
    + apply StronglySorted_filter, C1.
    + intros Ex Hq. apply accepted_all; assumption.
Qed.

(** C4 fails as stated: with a clock that is set back between two
    appends, both accepted, [listMessages] answers the second message before
    the first, ids decreasing. *)
Lemma set_back_clock_breaks_call_order :
  let w0 := serve late_set_back_clock [PostThread (Some "T1") (Some "Test")] boot in
  let calls := [(Some "user", Some "Hello"); (Some "model", Some "Hi there")] in
  accepted late_set_back_clock "T1" calls w0 = calls /\
  fst (listMessages "T1" (appendAll late_set_back_clock "T1" calls w0)) =
    JsonMessages
      [Message.mk 2 (Some "T1") (Some "model") (Some "Hi there") 1700000002;
       Message.mk 1 (Some "T1") (Some "user") (Some "Hello") 1700000100].
Proof. split; reflexivity. Qed.

(** C4, as the code has it: [listMessages] answers the rows of the thread,
    each once, ordered by [(created_at, id)], so equal [created_at] are in id
    order.  While the clock does not step back, a run of [appendMessage] calls
    on one thread extends what [listMessages] answers by exactly the accepted
    calls, in call order, with strictly increasing ids; and every call is
    accepted when the thread exists and rowids are left. *)
Theorem listMessages_in_call_order (clock : nat -> Timestamp)
        (rs : list Request) (tid : string) (calls : list (Text * Text)) :
  let w0 := serve clock rs boot in
  let w1 := appendAll clock tid calls w0 in
  (exists rows,
      listMessages tid w1 = (JsonMessages rows, w1) /\
      Permutation rows
        (filter (fun m => sql_eq (Message.thread_id m) (Some tid))
                (Store.messages (db w1))) /\
      StronglySorted Inv.created_then_id rows) /\
  (monotone clock ->
   exists rows0 news,
     listMessages tid w0 = (JsonMessages rows0, w0) /\
     listMessages tid w1 = (JsonMessages (rows0 ++ news), w1) /\
     map role_content news = accepted clock tid calls w0 /\
     (rows0 = [] -> map role_content (rows0 ++ news) = accepted clock tid calls w0) /\
     StronglySorted Inv.id_lt (rows0 ++ news) /\
     (Store.thread_exists (Some tid) (db w0) = true ->
      Store.sqlite_sequence (db w0) + Z.of_nat (List.length calls) <= Store.MAX_ROWID ->
      accepted clock tid calls w0 = calls)).
Proof.
  intros w0 w1.
  destruct (select_messages_in_call_order clock rs tid calls) as [Hsorted Hrun].
  fold w0 w1 in Hsorted, Hrun. split.
  - exists (Store.select_messages (Some tid) (db w1)).
    split; [reflexivity|]. split; [apply order_by_perm|exact Hsorted].
  - intros Hmono. destruct (Hrun Hmono) as ((news & Hext & Hacc) & _ & Hids & Hall).
    exists (Store.select_messages (Some tid) (db w0)), news.
    unfold listMessages. rewrite <- Hext.
    split; [reflexivity|]. split; [reflexivity|]. split; [exact Hacc|].
    split; [|split; [exact Hids|exact Hall]].
    intros E. rewrite Hext, E. exact Hacc.
Qed.

Lemma listMessages_in_call_order_witness :
  let w0 := serve wall_clock [PostThread (Some "T1") (Some "Test")] boot in
  let calls := [(Some "user", Some "Hello"); (Some "model", Some "Hi there")] in
  exists rows0 news,
    listMessages "T1" w0 = (JsonMessages rows0, w0) /\
    listMessages "T1" (appendAll wall_clock "T1" calls w0) =
      (JsonMessages (rows0 ++ news), appendAll wall_clock "T1" calls w0) /\
    map role_content news = calls.
Proof.
  intros w0 calls.
  assert (Hmono : monotone wall_clock) by (intros n; unfold wall_clock; lia).
  destruct (proj2 (listMessages_in_call_order wall_clock
                     [PostThread (Some "T1") (Some "Test")] "T1" calls) Hmono)
    as (rows0 & news & H0 & H1 & Hacc & _ & _ & Hall).
  exists rows0, news. split; [exact H0|]. split; [exact H1|].
  rewrite Hacc. apply Hall; [reflexivity|vm_compute; discriminate].
Defined.

(** ** The client's arrays *)

Section HeapFacts.
Import App.

Lemma deref_alloc_old (a : list Message.t) (h : Heap) (r : Ref) :
  (r < List.length h)%nat -> deref (snd (alloc a h)) r = deref h r.
Proof. intros H. unfold deref, alloc; simpl. now rewrite app_nth1. Qed.

Lemma deref_alloc_new (a : list Message.t) (h : Heap) :
  deref (snd (alloc a h)) (fst (alloc a h)) = a.
Proof.
  unfold deref, alloc; simpl. rewrite app_nth2 by lia.
  now rewrite Nat.sub_diag.
Qed.

Lemma setMessages_append_shown (m : Message.t) (s : State) :
  deref (heap (setMessages_append m s)) (messages (setMessages_append m s)) =
  deref (heap s) (messages s) ++ [m].
Proof.
  unfold setMessages_append, spread_then.
  exact (deref_alloc_new (deref (heap s) (messages s) ++ [m]) (heap s)).
Qed.

Lemma setMessages_append_old (m : Message.t) (s : State) (r : Ref) :
  (r < List.length (heap s))%nat ->
  deref (heap (setMessages_append m s)) r = deref (heap s) r.
Proof.
  intros H. unfold setMessages_append, spread_then.
  exact (deref_alloc_old _ (heap s) r H).
Qed.

Lemma setMessages_append_valid (m : Message.t) (s : State) :
  (messages (setMessages_append m s) < List.length (heap (setMessages_append m s)))%nat.
Proof.
  unfold setMessages_append, spread_then, alloc; simpl.
  rewrite length_app; simpl. lia.
Qed.

Lemma assemble_contents_value (r : Ref) (m : Message.t) (h : Heap) :
  fst (assemble_contents r m h) =
  map (fun x => Content.mk (Message.role x) [Message.content x]) (deref h r ++ [m]).
Proof.
  unfold assemble_contents, spread_then.
  pose proof (deref_alloc_new (deref h r ++ [m]) h) as E.
  destruct (alloc (deref h r ++ [m]) h) as [tmp h1]. simpl in *. now rewrite E.
Qed.

Lemma assemble_contents_heap (r : Ref) (m : Message.t) (h : Heap) :
  snd (assemble_contents r m h) = h ++ [deref h r ++ [m]].
Proof. reflexivity. Qed.
End HeapFacts.

(** C6: the context handed to the model for history [[m1; ...; mn]] and
    new message [m] is [[m1; ...; mn; m]] as role and content pairs: as many
    entries, in the same order, the new message last.  Building it allocates
    new arrays only: every array that existed before, the history among them,
    holds afterwards what it held before. *)
Theorem assemble_contents_appends (h : App.Heap) (history : App.Ref)
        (m : App.Message.t) :
  map App.as_pair (fst (App.assemble_contents history m h)) =
    map (fun x => Some (App.Message.role x, App.Message.content x)) (App.deref h history)
      ++ [Some (App.Message.role m, App.Message.content m)] /\
  (forall r, (r < List.length h)%nat ->
             App.deref (snd (App.assemble_contents history m h)) r = App.deref h r).
Proof.
  split.
  - rewrite assemble_contents_value, map_map, map_app. reflexivity.
  - intros r Hr. rewrite assemble_contents_heap. unfold App.deref. now rewrite app_nth1.
Qed.

Lemma assemble_contents_appends_witness :
  let m1 := App.Message.mk (Some 1) App.user "Hello" in
  let m2 := App.Message.mk (Some 2) App.model "Hi there" in
  let m3 := App.Message.mk None App.user "And then?" in
  App.deref (snd (App.assemble_contents 0%nat m3 [[m1; m2]])) 0%nat = [m1; m2].
Proof.
  intros m1 m2 m3.
  apply (proj2 (assemble_contents_appends [[m1; m2]] 0%nat m3)). simpl. lia.
Defined.

(** ** Requests of the component *)

Section RoutingFacts.
Variable clock : nat -> Timestamp.

(** No route of the server is under [/api/chats]. *)
Lemma route_chats (m : Http.Method) (rest : list string) (b : Http.Body) :
  Http.route (Http.mk m ("api" :: "chats" :: rest) b) = None.
Proof.
  unfold Http.route. cbn [Http.method Http.path Http.body].
  destruct rest as [|x rest].
  - destruct m; reflexivity.
  - change (Http.segments ("api" :: "chats" :: x :: rest))
      with ("api" :: "chats" :: Http.segments (x :: rest)).
    destruct (Http.segments (x :: rest)) as [|y [|z [|u l]]]; destruct m; reflexivity.
Qed.

Lemma fetch_chats (m : Http.Method) (rest : list string) (b : Http.Body) (w : World) :
  App.fetch clock m ("api" :: "chats" :: rest) b w = (Unhandled, w).
Proof. unfold App.fetch, app. now rewrite route_chats. Qed.

Lemma fetchChats_unhandled (s : App.State) (w : World) :
  App.fetchChats clock s w = (s, w).
Proof. unfold App.fetchChats. now rewrite fetch_chats. Qed.

Lemma post_chat_unhandled (id title : string) (w : World) :
  App.post_chat clock id title w = (Unhandled, w).
Proof. apply fetch_chats. Qed.

Lemma post_message_unhandled (chatId : string) (m : App.Message.t) (w : World) :
  App.post_message clock chatId m w = (Unhandled, w).
Proof. apply fetch_chats. Qed.

End RoutingFacts.

(** ** One turn of the client *)

Section TurnFacts.
Import App.
Variable clock : nat -> Timestamp.
Variable generateContent : list Content.t -> ModelOutcome.

(** The chat a turn is about: the selection when there is a usable one, the
    fresh id otherwise. *)
Lemma ensureChat_result uuid s w :
  ensureChat clock uuid s w =
    match currentChatId s with
    | Some chatId =>
        if Js.truthy chatId then (chatId, s, w)
        else (uuid, setCurrentChatId (Some uuid) s, w)
    | None => (uuid, setCurrentChatId (Some uuid) s, w)
    end.
Proof.
  unfold ensureChat.
  destruct (currentChatId s) as [c|]; [destruct (Js.truthy c); [reflexivity|]|];
    now rewrite post_chat_unhandled, fetchChats_unhandled.
Qed.

Lemma ensureChat_state uuid s w :
  let s1 := snd (fst (ensureChat clock uuid s w)) in
  heap s1 = heap s /\ messages s1 = messages s /\ input s1 = input s /\
  isLoading s1 = isLoading s /\ chats s1 = chats s /\
  currentChatId s1 = Some (fst (fst (ensureChat clock uuid s w))) /\
  snd (ensureChat clock uuid s w) = w.
Proof.
  rewrite ensureChat_result.
  destruct (currentChatId s) as [c|] eqn:E; [destruct (Js.truthy c)|]; simpl; auto 10.
Qed.


(** What the turn leaves on the server, and what it leaves on screen. *)
Lemma handleSendMessage_runs uuid s w :
  Js.truthy (Js.trim (input s)) = true -> isLoading s = false ->
  (messages s < List.length (heap s))%nat ->
  let chatId := fst (fst (ensureChat clock uuid s w)) in
  let outcome := generateContent (contents_of (deref (heap s) (messages s)) (input s)) in
  let reply := match outcome with
               | Resolves text => Message.mk None model (aiContent text)
               | Rejects => Message.mk None model ERROR_REPLY
               end in
  let s' := fst (handleSendMessage clock generateContent uuid s w) in
  snd (handleSendMessage clock generateContent uuid s w) = w /\
  deref (heap s') (messages s') =
    deref (heap s) (messages s) ++ [Message.mk None user (input s); reply] /\
  (messages s' < List.length (heap s'))%nat /\
  isLoading s' = false /\ input s' = "" /\ currentChatId s' = Some chatId /\
  chats s' = chats s.
Proof.
  intros Hin Hload Hvalid.
  pose proof (ensureChat_state uuid s w) as (Eh & Em & Ei & El & Ech & Ec & Ew).
  unfold handleSendMessage. rewrite Hin, Hload. cbn [negb orb].
  destruct (ensureChat clock uuid s w) as [[chatId s1] w1]. cbn [fst snd] in *.
  subst w1. rewrite post_message_unhandled.
  set (um := Message.mk None user (input s)).
  set (s2 := setIsLoading true (setInput "" (setMessages_append um s1))).
  assert (Hs2 : deref (heap s2) (messages s2) = deref (heap s) (messages s) ++ [um]).
  { change (deref (heap (setMessages_append um s1)) (messages (setMessages_append um s1))
            = deref (heap s) (messages s) ++ [um]).
    rewrite setMessages_append_shown. now rewrite Eh, Em. }
  assert (Hv2 : (messages s2 < List.length (heap s2))%nat)
    by exact (setMessages_append_valid um s1).
  assert (Hold : deref (heap s2) (messages s) = deref (heap s) (messages s)).
  { change (deref (heap (setMessages_append um s1)) (messages s)
            = deref (heap s) (messages s)).
    rewrite setMessages_append_old; [now rewrite Eh|].
    rewrite Eh. exact Hvalid. }
  assert (Hch2 : chats s2 = chats s).
  { unfold s2, setMessages_append, spread_then, alloc; simpl. exact Ech. }
  pose proof (assemble_contents_value (messages s) um (heap s2)) as Ectx.
  pose proof (assemble_contents_heap (messages s) um (heap s2)) as Eheap.
  destruct (assemble_contents (messages s) um (heap s2)) as [contents h].
  cbn [fst snd] in Ectx, Eheap. rewrite Hold in Ectx, Eheap.
  change (contents = contents_of (deref (heap s) (messages s)) (input s)) in Ectx.
  rewrite Ectx.
  set (s3 := mkState h (chats s2) (currentChatId s2) (messages s2) (input s2) (isLoading s2)).
  assert (Hs3 : deref (heap s3) (messages s3) = deref (heap s) (messages s) ++ [um]).
  { unfold s3; simpl. rewrite Eheap. unfold deref. rewrite app_nth1 by exact Hv2.
    exact Hs2. }
  assert (Hc3 : currentChatId s3 = Some chatId) by (unfold s3, s2; simpl; exact Ec).
  assert (Hfinal : forall reply,
             let s' := setIsLoading false (setMessages_append reply s3) in
             deref (heap s') (messages s') = deref (heap s) (messages s) ++ [um; reply] /\
             (messages s' < List.length (heap s'))%nat /\
             isLoading s' = false /\ input s' = "" /\ currentChatId s' = Some chatId /\
             chats s' = chats s).
  { intros reply. cbn zeta. split; [|split; [|split; [|split; [|split]]]].
    - change (deref (heap (setMessages_append reply s3))
                    (messages (setMessages_append reply s3)) =
              deref (heap s) (messages s) ++ [um; reply]).
      rewrite setMessages_append_shown, Hs3, <- app_assoc. reflexivity.
    - apply (setMessages_append_valid reply s3).
    - reflexivity.
    - reflexivity.
    - exact Hc3.
    - exact Hch2. }
  destruct (generateContent (contents_of (deref (heap s) (messages s)) (input s)))
    as [|text].
  - split; [reflexivity|]. apply (Hfinal (Message.mk None model ERROR_REPLY)).
  - rewrite post_message_unhandled.
    split; [reflexivity|]. apply (Hfinal (Message.mk None model (aiContent text))).
Qed.
End TurnFacts.

Section ComponentFacts.
Variable clock : nat -> Timestamp.
Variable generateContent : list App.Content.t -> App.ModelOutcome.

Lemma handleSendMessage_world (uuid : string) (s : App.State) (w : World) :
  snd (App.handleSendMessage clock generateContent uuid s w) = w /\
  App.chats (fst (App.handleSendMessage clock generateContent uuid s w)) = App.chats s.
Proof.
  unfold App.handleSendMessage.
  destruct (negb (Js.truthy (Js.trim (App.input s))) || App.isLoading s); [auto|].
  pose proof (ensureChat_state clock uuid s w) as (_ & _ & _ & _ & Ech & _ & Ew).
  destruct (App.ensureChat clock uuid s w) as [[chatId s1] w1]. cbn [fst snd] in Ech, Ew.
  subst w1. rewrite post_message_unhandled.
  unfold App.assemble_contents, App.setMessages_append, App.spread_then, App.alloc.
  cbn [App.heap App.setIsLoading App.setInput App.messages App.chats].
  destruct (generateContent _) as [|text]; [auto|].
  rewrite post_message_unhandled. auto.
Qed.

Lemma createNewChat_result (uuid : string) (s : App.State) (w : World) :
  App.createNewChat clock uuid s w = (App.setCurrentChatId (Some uuid) s, w).
Proof.
  unfold App.createNewChat. now rewrite post_chat_unhandled, fetchChats_unhandled.
Qed.

Lemma deleteChat_result (id : string) (s : App.State) (w : World) :
  App.deleteChat clock id s w =
    (match App.currentChatId s with
     | Some current => if String.eqb current id then App.setCurrentChatId None s else s
     | None => s
     end, w).
Proof.
  unfold App.deleteChat. rewrite fetch_chats, fetchChats_unhandled.
  destruct (App.currentChatId s) as [c|]; [destruct (String.eqb c id)|]; reflexivity.
Qed.
End ComponentFacts.

Section AppendFacts.
Import Store Inv.
Variable clock : nat -> Timestamp.

Lemma appendMessage_success_inv tid role content w :
  fst (appendMessage clock tid role content w) = JsonSuccess ->
  exists rowid, new_rowid (db w) = Some rowid /\ thread_exists (Some tid) (db w) = true.
Proof.
  intros H. destruct (new_rowid (db w)) as [rowid|] eqn:En.
  - destruct (thread_exists (Some tid) (db w)) eqn:Ex; [eauto|].
    rewrite appendMessage_throws in H by (right; exact Ex). discriminate.
  - rewrite appendMessage_throws in H by (left; exact En). discriminate.
Qed.

Lemma appendMessage_accepts tid role content w :
  Consistent (db w) ->
  thread_exists (Some tid) (db w) = true ->
  sqlite_sequence (db w) < MAX_ROWID ->
  fst (appendMessage clock tid role content w) = JsonSuccess /\
  messages (db (snd (appendMessage clock tid role content w))) =
    messages (db w) ++
      [Message.mk (sqlite_sequence (db w) + 1) (Some tid) role content (clock (tick w))] /\
  Consistent (db (snd (appendMessage clock tid role content w))) /\
  thread_exists (Some tid) (db (snd (appendMessage clock tid role content w))) = true /\
  sqlite_sequence (db (snd (appendMessage clock tid role content w))) =
    sqlite_sequence (db w) + 1 /\
  tick (snd (appendMessage clock tid role content w)) = S (S (tick w)).
Proof.
  intros C Ex Hq.
  pose proof (handle_consistent clock (PostMessage tid role content) w C) as C'.
  cbn [handle] in C'.
  rewrite (appendMessage_ok clock _ _ _ _ _ (new_rowid_available _ C Hq) Ex) in *.
  cbn [fst snd] in *.
  split; [reflexivity|]. split; [reflexivity|]. split; [exact C'|].
  split; [|split; reflexivity].
  simpl. unfold update_updated_at.
  rewrite (thread_exists_same_keys _ (mkDb (threads (db w)) _ _)); [exact Ex|].
  intros t. destruct (sql_eq _ _); reflexivity.
Qed.
End AppendFacts.




(* ================================================================== *)
(** * Further facts and scenarios *)

(** The scenario of the specification: create [T1], append a user and a
    model message, list them. *)
Example scenario_T1 :
  map role_content
      (Store.select_messages (Some "T1")
         (db (serve wall_clock
                [PostThread (Some "T1") (Some "Test");
                 PostMessage "T1" (Some "user") (Some "Hello");
                 PostMessage "T1" (Some "model") (Some "Hi there")] boot)))
  = [(Some "user", Some "Hello"); (Some "model", Some "Hi there")].
Proof. reflexivity. Qed.

(** The thread id is unique, so creating a thread twice fails the second
    time. *)
Example scenario_duplicate_thread :
  fst (createThread wall_clock (Some "T1") (Some "Again")
         (serve wall_clock [PostThread (Some "T1") (Some "Test")] boot))
  = Status500 SQLITE_CONSTRAINT_PRIMARYKEY.
Proof. reflexivity. Qed.

(** A clock that is set back shows in a run of the server. *)
Example scenario_set_back_clock :
  map Thread.updated_at
      (Store.threads
         (db (serve set_back_clock
                [PostThread (Some "T1") (Some "Test");
                 PostMessage "T1" (Some "user") (Some "Hello")] boot)))
  = [1700000002].
Proof. reflexivity. Qed.

(** [generateChatResponse] takes a [history] and does not use it: the chat
    it opens starts empty and is sent the new message alone.  The component
    does not call it. *)
Remark generateChatResponse_ignores_history
       (sendMessage : Gemini.Chat -> string -> option string)
       (message : string) (history : list (string * string)) :
  Gemini.generateChatResponse sendMessage message history =
    sendMessage (Gemini.mkChat "gemini-3-flash-preview" Gemini.LUMINA []) message.
Proof. reflexivity. Qed.

(** A turn with blank input, or while another is loading, does nothing. *)
Remark handleSendMessage_guard
       (clock : nat -> Timestamp)
       (generateContent : list App.Content.t -> App.ModelOutcome)
       (uuid : string) (s : App.State) (w : World) :
  Js.truthy (Js.trim (App.input s)) = false \/ App.isLoading s = true ->
  App.handleSendMessage clock generateContent uuid s w = (s, w).
Proof.
  unfold App.handleSendMessage. intros [-> | ->]; [reflexivity|].
  now rewrite orb_true_r.
Qed.

(* ================================================================== *)
(** * More of the server *)

(** ** The sorter, for a total and transitive comparison *)

Section SorterTotal.
Context {A : Type}.
Variable le : A -> A -> bool.
Hypothesis le_total : forall a b, le a b = true \/ le b a = true.
Hypothesis le_trans : forall a b c, le a b = true -> le b c = true -> le a c = true.

Lemma sorter_insert_sorted (x : A) (l : list A) :
  sorted_by le l -> sorted_by le (sorter_insert le x l).
Proof.
  unfold sorted_by. induction 1 as [|y l Hs IH Hy]; simpl.
  - repeat constructor.
  - destruct (le x y) eqn:E.
    + constructor; [constructor; assumption|].
      constructor; [exact E|]. revert Hy. apply Forall_impl. intros z. apply le_trans, E.
    + constructor; [exact IH|].
      rewrite Forall_forall in *. intros z Hz.
      apply (Permutation_in _ (sorter_insert_perm le x l)) in Hz.
      destruct Hz as [<-|Hz]; [|auto].
      destruct (le_total x y) as [H|H]; [congruence|exact H].
Qed.

Lemma order_by_sorted_total (l : list A) : sorted_by le (order_by le l).
Proof.
  induction l as [|x l IH]; simpl; [constructor|].
  apply sorter_insert_sorted, IH.
Qed.

Lemma sorter_insert_filter (p : A -> bool) (x : A) (l : list A) :
  sorted_by le l ->
  filter p (sorter_insert le x l) =
    if p x then sorter_insert le x (filter p l) else filter p l.
Proof.
  unfold sorted_by. induction 1 as [|y l Hs IH Hy]; simpl.
  - destruct (p x); reflexivity.
  - destruct (le x y) eqn:E; simpl.
    + destruct (p x) eqn:Px, (p y) eqn:Py; simpl; rewrite ?E; try reflexivity.
      assert (Hall : Forall (fun z => le x z = true) (filter p l)).
      { rewrite Forall_forall in *. intros z Hz. apply filter_In in Hz as [Hz _].
        eapply le_trans; [exact E|auto]. }
      destruct (filter p l) as [|z zs]; [reflexivity|].
      simpl. inversion Hall as [|? ? Hz _]; subst. now rewrite Hz.
    + rewrite IH. destruct (p x), (p y); simpl; rewrite ?E; reflexivity.
Qed.

(** Sorting and then dropping rows is dropping rows and then sorting. *)
Lemma order_by_filter (p : A -> bool) (l : list A) :
  filter p (order_by le l) = order_by le (filter p l).
Proof.
  induction l as [|x l IH]; simpl; [reflexivity|].
  rewrite sorter_insert_filter by apply order_by_sorted_total.
  rewrite IH. destruct (p x); reflexivity.
Qed.
End SorterTotal.

Section SorterMap.
Context {A : Type}.
Variable le : A -> A -> bool.
Variable f : A -> A.
Hypothesis le_f : forall a b, le (f a) (f b) = le a b.

Lemma sorter_insert_map (x : A) (l : list A) :
  sorter_insert le (f x) (map f l) = map f (sorter_insert le x l).
Proof.
  induction l as [|y l IH]; simpl; [reflexivity|].
  rewrite le_f. destruct (le x y); simpl; [reflexivity|]. now rewrite IH.
Qed.

(** A change of rows that leaves the sort keys alone commutes with the
    sorter. *)
Lemma order_by_map (l : list A) : order_by le (map f l) = map f (order_by le l).
Proof.
  induction l as [|x l IH]; simpl; [reflexivity|].
  now rewrite IH, sorter_insert_map.
Qed.
End SorterMap.

Lemma by_updated_at_desc_total (a b : Thread.t) :
  Store.by_updated_at_desc a b = true \/ Store.by_updated_at_desc b a = true.
Proof. unfold Store.by_updated_at_desc. rewrite !Z.leb_le. lia. Qed.

Lemma by_updated_at_desc_trans (a b c : Thread.t) :
  Store.by_updated_at_desc a b = true -> Store.by_updated_at_desc b c = true ->
  Store.by_updated_at_desc a c = true.
Proof. unfold Store.by_updated_at_desc. rewrite !Z.leb_le. lia. Qed.

(** X1: [listThreads] answers every row of [threads] exactly once (a
    permutation of the table), most recently updated first, and leaves the
    server as it was. *)
Theorem listThreads_most_recent_first (w : World) :
  exists rows,
    listThreads w = (JsonThreads rows, w) /\
    Permutation rows (Store.threads (db w)) /\
    StronglySorted (fun a b => Thread.updated_at b <= Thread.updated_at a) rows.
Proof.
  exists (Store.select_threads (db w)). split; [reflexivity|]. split.
  - apply order_by_perm.
  - eapply StronglySorted_weaken;
      [|apply (order_by_sorted_total _ by_updated_at_desc_total by_updated_at_desc_trans)].
    intros a b H. apply Z.leb_le. exact H.
Qed.

Lemma keys_In (ts : list Thread.t) (k : string) :
  In k (Inv.keys ts) <-> exists t, In t ts /\ Thread.id t = Some k.
Proof.
  unfold Inv.keys. rewrite in_flat_map. split.
  - intros (t & Ht & Hk). exists t. split; [exact Ht|].
    destruct (Thread.id t) as [k'|]; [|destruct Hk].
    destruct Hk as [->|[]]. reflexivity.
  - intros (t & Ht & E). exists t. split; [exact Ht|]. rewrite E. now left.
Qed.

Lemma keys_NoDup (ts : list Thread.t) :
  StronglySorted Inv.distinct_key ts -> NoDup (Inv.keys ts).
Proof.
  induction 1 as [|t ts Hs IH Ht]; [constructor|].
  unfold Inv.keys; simpl. fold (Inv.keys ts).
  destruct (Thread.id t) as [k|] eqn:E; [|exact IH].
  simpl. constructor; [|exact IH].
  intros Hin. apply keys_In in Hin as (t' & Ht' & E').
  rewrite Forall_forall in Ht. specialize (Ht t' Ht').
  unfold Inv.distinct_key in Ht. rewrite E, E', sql_eq_refl in Ht. discriminate.
Qed.

(** X2: ids that are not [NULL] are unique.  In every state the server
    reaches, the ids of the threads that have one are pairwise different (rows
    with a [NULL] id may repeat), and [createThread] with an id that is
    already there answers status 500 (primary key) and changes nothing in the
    database. *)
Theorem createThread_rejects_duplicate (clock : nat -> Timestamp)
        (rs : list Request) (id title : Text) :
  NoDup (Inv.keys (Store.threads (db (serve clock rs boot)))) /\
  (Store.thread_exists id (db (serve clock rs boot)) = true ->
   fst (createThread clock id title (serve clock rs boot))
     = Status500 SQLITE_CONSTRAINT_PRIMARYKEY /\
   db (snd (createThread clock id title (serve clock rs boot)))
     = db (serve clock rs boot)).
Proof.
  split; [apply keys_NoDup, reachable_consistent|].
  intros H. unfold createThread, Store.insert_thread; simpl. rewrite H. split; reflexivity.
Qed.

Lemma createThread_rejects_duplicate_witness :
  let rs := [PostThread (Some "T1") (Some "Test"); PostThread None (Some "A");
             PostThread None (Some "B")] in
  fst (createThread wall_clock (Some "T1") (Some "Again") (serve wall_clock rs boot))
    = Status500 SQLITE_CONSTRAINT_PRIMARYKEY /\
  db (snd (createThread wall_clock (Some "T1") (Some "Again") (serve wall_clock rs boot)))
    = db (serve wall_clock rs boot).
Proof.
  intros rs.
  apply (proj2 (createThread_rejects_duplicate wall_clock rs (Some "T1") (Some "Again"))).
  reflexivity.
Defined.

(** X3: [createThread] with an id that is not there answers success and
    adds one row with that id and title, created and updated at the same
    clock reading; no message is touched, and in a state the server reaches
    the new thread lists no messages. *)
Theorem createThread_adds_empty_thread (clock : nat -> Timestamp)
        (rs : list Request) (tid : string) (title : Text) :
  let w := serve clock rs boot in
  let w' := snd (createThread clock (Some tid) title w) in
  Store.thread_exists (Some tid) (db w) = false ->
  fst (createThread clock (Some tid) title w) = JsonSuccess /\
  Store.threads (db w') =
    Store.threads (db w) ++
      [Thread.mk (Some tid) title (clock (tick w)) (clock (tick w))] /\
  Store.messages (db w') = Store.messages (db w) /\
  fst (listMessages tid w') = JsonMessages [].
Proof.
  intros w w' H. unfold w', createThread, Store.insert_thread; simpl. rewrite H; simpl.
  repeat split. unfold listMessages; simpl. f_equal.
  pose proof (reachable_consistent clock rs) as C. fold w in C.
  apply select_messages_none. simpl.
  pose proof (Inv.c_orphans _ C) as Ho. unfold Inv.orphan_free in Ho.
  rewrite Forall_forall in *. intros m Hm. specialize (Ho m Hm).
  destruct (sql_eq (Message.thread_id m) (Some tid)) eqn:E; [|reflexivity].
  apply sql_eq_Some in E. rewrite E in Ho. congruence.
Qed.

Lemma createThread_adds_empty_thread_witness :
  fst (createThread wall_clock (Some "T1") (Some "Test") boot) = JsonSuccess /\
  Store.threads (db (snd (createThread wall_clock (Some "T1") (Some "Test") boot))) =
    [Thread.mk (Some "T1") (Some "Test") 1700000000 1700000000].
Proof.
  destruct (createThread_adds_empty_thread wall_clock [] "T1" (Some "Test") eq_refl)
    as (H1 & H2 & _).
  split; [exact H1|exact H2].
Defined.

(** X4: a thread whose id is [NULL] is always accepted by [createThread],
    also when there is one already, and no request can rename, touch or delete
    it afterwards: its row stays in the table, unchanged, whatever is served. *)
Theorem null_id_thread_is_out_of_reach (clock : nat -> Timestamp)
        (title : Text) (rs : list Request) (w : World) (t : Thread.t) :
  fst (createThread clock None title w) = JsonSuccess /\
  (In t (Store.threads (db w)) -> Thread.id t = None ->
   In t (Store.threads (db (serve clock rs w)))).
Proof.
  split.
  - unfold createThread, Store.insert_thread, Store.thread_exists; simpl.
    replace (existsb _ _) with false; [reflexivity|].
    symmetry. apply existsb_false_iff. intros x _. destruct (Thread.id x); reflexivity.
  - revert w. induction rs as [|r rs IH]; intros w Hin Hid; [exact Hin|].
    rewrite serve_cons. apply IH; [|exact Hid].
    destruct r as [|id ttl|tid|tid role content|tid|tid ttl]; simpl; auto.
    + unfold createThread, Store.insert_thread; simpl.
      destruct (Store.thread_exists id (db w)); simpl; [exact Hin|].
      apply in_or_app. left. exact Hin.
    + unfold appendMessage, Store.insert_message; simpl.
      destruct (Store.new_rowid (db w)); simpl; [|exact Hin].
      destruct (Store.thread_exists (Some tid) (db w)); simpl; [|exact Hin].
      apply in_map_iff. exists t. rewrite Hid. simpl. auto.
    + apply filter_In. rewrite Hid. auto.
    + apply in_map_iff. exists t. rewrite Hid. simpl. auto.
Qed.

Lemma null_id_thread_is_out_of_reach_witness :
  let w := serve wall_clock [PostThread None (Some "Untitled")] boot in
  let t := Thread.mk None (Some "Untitled") 1700000000 1700000000 in
  In t (Store.threads
          (db (serve wall_clock
                 [PatchThread "null" (Some "Renamed"); DeleteThread "null";
                  DeleteThread ""] w))).
Proof.
  intros w t.
  apply (proj2 (null_id_thread_is_out_of_reach wall_clock None
                  [PatchThread "null" (Some "Renamed"); DeleteThread "null";
                   DeleteThread ""] w t)).
  - left. reflexivity.
  - reflexivity.
Defined.

Section MoreRouteFacts.
Import Store Inv.
Variable clock : nat -> Timestamp.

Lemma updated_at_of_touched (now : Timestamp) (tid : string) (d : Db) :
  thread_exists (Some tid) d = true ->
  updated_at_of tid (update_updated_at now (Some tid) d) = Some now.
Proof.
  unfold thread_exists, updated_at_of, update_updated_at; simpl.
  induction (threads d) as [|t ts IH]; simpl; [discriminate|].
  destruct (sql_eq (Thread.id t) (Some tid)) eqn:E; simpl.
  - rewrite E. reflexivity.
  - rewrite E. exact IH.
Qed.

(** The rows of another thread are not concerned by a statement on this
    one. *)
Lemma delete_thread_other (tid tid' : string) (d : Db) :
  tid <> tid' ->
  filter (fun m => sql_eq (Message.thread_id m) (Some tid'))
         (messages (delete_thread (Some tid) d)) =
  filter (fun m => sql_eq (Message.thread_id m) (Some tid')) (messages d).
Proof.
  intros Hne. simpl. induction (messages d) as [|m ms IH]; simpl; [reflexivity|].
  destruct (sql_eq (Message.thread_id m) (Some tid')) eqn:E.
  - replace (existsb _ _) with false; [simpl; now rewrite E, IH|].
    symmetry. apply existsb_false_iff. intros t Ht. apply filter_In in Ht as [_ Ht].
    apply sql_eq_Some in E. apply sql_eq_Some in Ht. rewrite E, Ht. simpl.
    apply String.eqb_neq. congruence.
  - destruct (negb _); simpl; rewrite ?E; exact IH.
Qed.

(** One request keeps or adds rows of [messages]; a row it adds has an id
    above the sequence, and the sequence does not go down. *)
Lemma handle_rows (r : Request) (w : World) :
  Consistent (db w) ->
  sqlite_sequence (db w) <= sqlite_sequence (db (snd (handle clock r w))) /\
  (forall m, In m (messages (db (snd (handle clock r w)))) ->
             In m (messages (db w)) \/ sqlite_sequence (db w) < Message.id m).
Proof.
  intros C. destruct r as [|id ttl|tid|tid role content|tid|tid ttl]; simpl;
    try (split; [lia|auto]).
  - unfold createThread, insert_thread; simpl.
    destruct (thread_exists id (db w)); simpl; split; auto; lia.
  - destruct (new_rowid (db w)) as [rowid|] eqn:En.
    + destruct (thread_exists (Some tid) (db w)) eqn:Ex.
      * rewrite (appendMessage_ok clock _ _ _ _ _ En Ex); simpl.
        destruct (new_rowid_spec _ _ C En) as [-> _].
        split; [lia|]. intros m Hm. apply in_app_or in Hm as [Hm|[<-|[]]]; [auto|].
        right. simpl. lia.
      * rewrite appendMessage_throws by (right; exact Ex). simpl. split; [lia|auto].
    + rewrite appendMessage_throws by (left; exact En). simpl. split; [lia|auto].
  - intros m Hm. apply filter_In in Hm. left. apply Hm.
Qed.

Lemma serve_rows (rs : list Request) (w : World) :
  Consistent (db w) ->
  sqlite_sequence (db w) <= sqlite_sequence (db (serve clock rs w)) /\
  (forall m, In m (messages (db (serve clock rs w))) ->
             In m (messages (db w)) \/ sqlite_sequence (db w) < Message.id m).
Proof.
  revert w. induction rs as [|r rs IH]; intros w C.
  - split; [simpl; lia|auto].
  - rewrite serve_cons.
    destruct (handle_rows r w C) as [Hq Hm].
    destruct (IH _ (handle_consistent clock r w C)) as [Hq' Hm'].
    split; [lia|]. intros m H. apply Hm' in H as [H|H]; [|right; lia].
    apply Hm in H as [H|H]; auto.
Qed.

Lemma ascending_unique (ms : list Message.t) (a b : Message.t) :
  StronglySorted id_lt ms -> In a ms -> In b ms -> Message.id a = Message.id b -> a = b.
Proof.
  induction 1 as [|m ms Hs IH Hm]; simpl; [intros []|].
  rewrite Forall_forall in Hm. unfold id_lt in Hm.
  intros [<-|Ha] [<-|Hb] E; auto.
  - specialize (Hm b Hb). lia.
  - specialize (Hm a Ha). lia.
Qed.
End MoreRouteFacts.

(** X5: while the clock does not step back, a successful [appendMessage]
    makes its thread the most recently updated one: its [updated_at] is the
    clock reading of the [UPDATE], and no thread that [listThreads] answers
    has a later one. *)
Theorem appendMessage_bumps_thread (clock : nat -> Timestamp)
        (rs : list Request) (tid : string) (role content : Text) :
  let w := serve clock rs boot in
  let w' := snd (appendMessage clock tid role content w) in
  monotone clock ->
  fst (appendMessage clock tid role content w) = JsonSuccess ->
  Inv.updated_at_of tid (db w') = Some (clock (S (tick w))) /\
  Forall (fun t => Thread.updated_at t <= clock (S (tick w)))
         (Store.select_threads (db w')).
Proof.
  intros w w' Hmono Hok.
  destruct (appendMessage_success_inv clock _ _ _ _ Hok) as (rowid & Hn & Hex).
  pose proof (reachable_timely clock Hmono rs) as T. fold w in T.
  unfold w'. rewrite (appendMessage_ok clock _ _ _ _ _ Hn Hex). cbn [snd db].
  split.
  - apply updated_at_of_touched. exact Hex.
  - assert (Hins : Store.insert_message (clock (tick w)) (Some tid) role content (db w)
                   = inr (Store.mkDb (Store.threads (db w))
                            (Store.messages (db w) ++
                               [Message.mk rowid (Some tid) role content (clock (tick w))])
                            rowid)).
    { unfold Store.insert_message. now rewrite Hn, Hex. }
    pose proof (append_timely _ _ (clock (S (tick w))) _ _ _ _ _ Hins
                  (Z.le_refl _) (Hmono (tick w)) T) as T'.
    pose proof (Inv.t_threads _ _ T') as Hall.
    rewrite Forall_forall in *. intros t Ht. apply Hall.
    unfold Store.select_threads in Ht. now apply order_by_In in Ht.
Qed.

Lemma appendMessage_bumps_thread_witness :
  let rs := [PostThread (Some "T1") (Some "One"); PostThread (Some "T2") (Some "Two")] in
  Inv.updated_at_of "T1"
    (db (snd (appendMessage wall_clock "T1" (Some "user") (Some "Hello")
                (serve wall_clock rs boot)))) = Some 1700000003.
Proof.
  intros rs.
  apply (appendMessage_bumps_thread wall_clock rs "T1" (Some "user") (Some "Hello")).
  - intros n. unfold wall_clock. lia.
  - reflexivity.
Defined.

(** X6: [renameThread] changes titles only.  The messages, the sequence
    and every [updated_at] stay as they are, and [listThreads] answers the
    same threads in the same order, with the same timestamps. *)
Theorem renameThread_keeps_order (tid : string) (title : Text) (w : World) :
  let w' := snd (renameThread tid title w) in
  Store.messages (db w') = Store.messages (db w) /\
  Store.sqlite_sequence (db w') = Store.sqlite_sequence (db w) /\
  map (fun t => (Thread.id t, Thread.created_at t, Thread.updated_at t))
      (Store.select_threads (db w')) =
  map (fun t => (Thread.id t, Thread.created_at t, Thread.updated_at t))
      (Store.select_threads (db w)).
Proof.
  split; [reflexivity|]. split; [reflexivity|].
  unfold Store.select_threads; simpl.
  rewrite order_by_map.
  - rewrite map_map. apply map_ext. intros t.
    destruct (sql_eq (Thread.id t) (Some tid)); reflexivity.
  - intros a b. unfold Store.by_updated_at_desc.
    destruct (sql_eq (Thread.id a) (Some tid)), (sql_eq (Thread.id b) (Some tid));
      reflexivity.
Qed.

(** X7: the messages of a thread are not affected by requests on other
    threads.  Whatever the request, unless it appends to [tid'] or deletes
    [tid'], [listMessages] on [tid'] answers after it what it answered before. *)
Theorem other_threads_are_isolated (clock : nat -> Timestamp)
        (r : Request) (tid' : string) (w : World) :
  (forall role content, r <> PostMessage tid' role content) ->
  r <> DeleteThread tid' ->
  fst (listMessages tid' (snd (handle clock r w))) = fst (listMessages tid' w).
Proof.
  intros Hpost Hdel. unfold listMessages; simpl. f_equal.
  unfold Store.select_messages. f_equal.
  destruct r as [|id ttl|tid|tid role content|tid|tid ttl]; simpl; auto.
  - unfold createThread, Store.insert_thread; simpl.
    destruct (Store.thread_exists id (db w)); reflexivity.
  - unfold appendMessage, Store.insert_message; simpl.
    destruct (Store.new_rowid (db w)); simpl; [|reflexivity].
    destruct (Store.thread_exists (Some tid) (db w)); simpl; [|reflexivity].
    rewrite filter_app; simpl.
    destruct (String.eqb_spec tid tid') as [->|Hne];
      [exfalso; apply (Hpost role content); reflexivity|].
    apply app_nil_r.
  - apply (delete_thread_other tid tid'). intros ->. apply Hdel. reflexivity.
Qed.

Lemma other_threads_are_isolated_witness :
  let w := serve wall_clock
             [PostThread (Some "T1") (Some "One"); PostThread (Some "T2") (Some "Two");
              PostMessage "T1" (Some "user") (Some "Hello");
              PostMessage "T2" (Some "user") (Some "Hi")] boot in
  fst (listMessages "T1" (snd (handle wall_clock (DeleteThread "T2") w)))
    = fst (listMessages "T1" w).
Proof.
  intros w. apply other_threads_are_isolated; intros; discriminate.
Defined.

(** X8: a message id is never given twice and a stored message never
    changes.  If a row is in the table at some point and a row with the same
    id is in the table after any further requests (deletions included), they
    are the same row. *)
Theorem message_ids_are_never_reused (clock : nat -> Timestamp)
        (rs rs' : list Request) (m m' : Message.t) :
  In m (Store.messages (db (serve clock rs boot))) ->
  In m' (Store.messages (db (serve clock (rs ++ rs') boot))) ->
  Message.id m = Message.id m' ->
  m = m'.
Proof.
  intros Hm Hm' E. rewrite serve_app in Hm'.
  pose proof (reachable_consistent clock rs) as C.
  destruct (serve_rows clock rs' _ C) as [_ Hrows].
  apply Hrows in Hm' as [Hm'|Hnew].
  - apply (ascending_unique _ _ _ (Inv.c_ascending _ C) Hm Hm' E).
  - pose proof (Inv.c_rowids _ C) as Hb. rewrite Forall_forall in Hb.
    specialize (Hb m Hm). lia.
Qed.

Lemma message_ids_are_never_reused_witness :
  let rs := [PostThread (Some "T1") (Some "One");
             PostMessage "T1" (Some "user") (Some "Hello")] in
  let rs' := [DeleteThread "T9";
              PostMessage "T1" (Some "model") (Some "Hi there")] in
  let m := Message.mk 1 (Some "T1") (Some "user") (Some "Hello") 1700000001 in
  let m' := nth 0 (Store.messages (db (serve wall_clock (rs ++ rs') boot))) m in
  m = m'.
Proof.
  intros rs rs' m m'.
  apply (message_ids_are_never_reused wall_clock rs rs' m m');
    [left; reflexivity|left; reflexivity|reflexivity].
Defined.

Lemma deleteThread_listing (tid : string) (w : World) :
  Store.select_threads (db (snd (deleteThread tid w))) =
  filter (fun t => negb (sql_eq (Thread.id t) (Some tid))) (Store.select_threads (db w)).
Proof.
  unfold Store.select_threads; simpl. symmetry.
  apply (order_by_filter _ by_updated_at_desc_total by_updated_at_desc_trans).
Qed.

Lemma deleteThread_listing_gone (tid : string) (w : World) :
  Forall (fun t => Thread.id t <> Some tid)
         (Store.select_threads (db (snd (deleteThread tid w)))).
Proof.
  rewrite deleteThread_listing. apply Forall_forall.
  intros t Ht Hid. apply filter_In in Ht as [_ Ht].
  rewrite Hid, sql_eq_refl in Ht. discriminate.
Qed.

(** X9: after [deleteThread] the thread is gone from [listThreads] and the
    other threads are listed as before, in the same order: the answer is the
    old answer without the rows of that id. *)
Theorem deleteThread_updates_listing (tid : string) (w : World) :
  let w' := snd (deleteThread tid w) in
  Store.select_threads (db w') =
    filter (fun t => negb (sql_eq (Thread.id t) (Some tid))) (Store.select_threads (db w)) /\
  Forall (fun t => Thread.id t <> Some tid) (Store.select_threads (db w')).
Proof.
  split; [apply deleteThread_listing|apply deleteThread_listing_gone].
Qed.

(* ================================================================== *)
(** * More of the client *)

(** ** [trim] *)

Section TrimFacts.
Import View.

Lemma chars_app (a b : string) : chars (a ++ b)%string = chars a ++ chars b.
Proof. unfold chars. induction a as [|c a IH]; simpl; [reflexivity|]. now rewrite IH. Qed.

Lemma string_of_list_ascii_app (l l' : list ascii) :
  string_of_list_ascii (l ++ l') =
  (string_of_list_ascii l ++ string_of_list_ascii l')%string.
Proof. induction l as [|c l IH]; simpl; [reflexivity|]. now rewrite IH. Qed.

Lemma chars_reverse (s : string) : chars (Js.reverse s) = rev (chars s).
Proof. unfold chars, Js.reverse. apply list_ascii_of_string_of_list_ascii. Qed.

Lemma reverse_app (a b : string) :
  Js.reverse (a ++ b)%string = (Js.reverse b ++ Js.reverse a)%string.
Proof.
  unfold Js.reverse. fold (chars (a ++ b)%string). rewrite chars_app, rev_app_distr.
  apply string_of_list_ascii_app.
Qed.

Lemma reverse_involutive (s : string) : Js.reverse (Js.reverse s) = s.
Proof.
  unfold Js.reverse at 1. fold (chars (Js.reverse s)).
  rewrite chars_reverse, rev_involutive. apply string_of_list_ascii_of_string.
Qed.

Lemma blank_reverse (s : string) : blank s -> blank (Js.reverse s).
Proof.
  unfold blank. rewrite chars_reverse, !Forall_forall.
  intros H c Hc. apply H. now apply in_rev.
Qed.

Lemma trimStart_split (s : string) :
  exists p, s = (p ++ Js.trimStart s)%string /\ blank p.
Proof.
  induction s as [|c s (p & E & Hp)]; simpl.
  - exists EmptyString. split; [reflexivity|constructor].
  - destruct (Js.is_white_space c) eqn:W.
    + exists (String c p). split; [simpl; now rewrite <- E|].
      constructor; assumption.
    + exists EmptyString. split; [reflexivity|constructor].
Qed.

Lemma trimStart_clean (s : string) : clean_start (Js.trimStart s).
Proof.
  induction s as [|c s IH]; simpl; [exact I|].
  destruct (Js.is_white_space c) eqn:W; [exact IH|exact W].
Qed.

Lemma trimStart_fixed (s : string) : clean_start s -> Js.trimStart s = s.
Proof. destruct s as [|c s]; simpl; [reflexivity|]. now intros ->. Qed.

Lemma trimStart_blank (s : string) : blank s -> Js.trimStart s = EmptyString.
Proof.
  unfold blank, chars. induction s as [|c s IH]; simpl; [reflexivity|].
  intros H. inversion H as [|? ? W Hs]; subst. rewrite W. apply IH, Hs.
Qed.

(** [trim] cuts white space off both ends and nothing else. *)
Lemma trim_split (s : string) :
  exists p q, s = (p ++ Js.trim s ++ q)%string /\ blank p /\ blank q.
Proof.
  destruct (trimStart_split s) as (p & Es & Hp).
  destruct (trimStart_split (Js.reverse (Js.trimStart s))) as (p' & Er & Hp').
  exists p, (Js.reverse p'). split; [|split; [exact Hp|apply blank_reverse, Hp']].
  rewrite Es at 1. f_equal. unfold Js.trim.
  rewrite <- reverse_app, <- Er. symmetry. apply reverse_involutive.
Qed.

Lemma trim_clean_end (s : string) : clean_end (Js.trim s).
Proof.
  unfold clean_end, Js.trim. rewrite reverse_involutive. apply trimStart_clean.
Qed.

Lemma trim_clean_start (s : string) : clean_start (Js.trim s).
Proof.
  pose proof (trimStart_clean s) as Hc.
  destruct (trimStart_split (Js.reverse (Js.trimStart s))) as (p' & Er & _).
  apply (f_equal Js.reverse) in Er. rewrite reverse_involutive, reverse_app in Er.
  unfold Js.trim.
  destruct (Js.reverse (Js.trimStart (Js.reverse (Js.trimStart s)))) as [|c r];
    [exact I|].
  rewrite Er in Hc. exact Hc.
Qed.

Lemma trim_blank (s : string) : blank s -> Js.trim s = EmptyString.
Proof. intros H. unfold Js.trim. now rewrite (trimStart_blank s H). Qed.

Lemma trim_chars (s : string) (c : ascii) : In c (chars (Js.trim s)) -> In c (chars s).
Proof.
  destruct (trim_split s) as (p & q & E & _). intros H.
  rewrite E, !chars_app. apply in_or_app. right. apply in_or_app. left. exact H.
Qed.

Lemma truthy_nonempty (s : string) : Js.truthy s = true <-> s <> EmptyString.
Proof.
  unfold Js.truthy. rewrite negb_true_iff.
  destruct (String.eqb_spec s EmptyString); split; congruence.
Qed.

Lemma strip_quotes_chars (s : string) (c : ascii) :
  In c (chars (Title.strip_quotes s)) -> Title.is_quote c = false /\ In c (chars s).
Proof.
  unfold chars. induction s as [|a s IH]; simpl; [intros []|].
  destruct (Title.is_quote a) eqn:Q; simpl.
  - intros H. destruct (IH H). auto.
  - intros [<-|H]; [auto|]. destruct (IH H). auto.
Qed.
End TrimFacts.

(** X10: when the model call resolves, [generateTitle] returns a title
    that is never empty, holds neither a double quote nor an apostrophe, and
    has no white space at either end.  It is the text of the response with the
    quotes dropped and the ends trimmed whenever that leaves something; when
    that leaves nothing, or the response has no text, it is the eight
    characters [New Chat].  When the call rejects there is no title. *)
Theorem generateTitle_is_clean (generateContent : string -> App.ModelOutcome)
        (message : string) :
  match Title.generateTitle generateContent message with
  | None => generateContent (Title.prompt message) = App.Rejects
  | Some t =>
      t <> EmptyString /\
      Forall (fun c => Title.is_quote c = false) (View.chars t) /\
      View.clean_start t /\ View.clean_end t /\
      (forall text, generateContent (Title.prompt message) = App.Resolves (Some text) ->
                    Js.trim (Title.strip_quotes text) <> EmptyString ->
                    t = Js.trim (Title.strip_quotes text))
  end /\
  (generateContent (Title.prompt message) = App.Rejects ->
   Title.generateTitle generateContent message = None) /\
  (generateContent (Title.prompt message) = App.Resolves None ->
   Title.generateTitle generateContent message = Some "New Chat") /\
  (forall text, generateContent (Title.prompt message) = App.Resolves (Some text) ->
                Js.trim (Title.strip_quotes text) = EmptyString ->
                Title.generateTitle generateContent message = Some "New Chat").
Proof.
  unfold Title.generateTitle.
  assert (Hdefault : Title.NEW_CHAT <> EmptyString /\
                     Forall (fun c => Title.is_quote c = false) (View.chars Title.NEW_CHAT) /\
                     View.clean_start Title.NEW_CHAT /\ View.clean_end Title.NEW_CHAT).
  { split; [discriminate|]. split; [repeat constructor|]. split; reflexivity. }
  split; [|split; [|split]].
  - destruct (generateContent (Title.prompt message)) as [|[text|]]; [reflexivity| |].
    + destruct (Js.truthy (Js.trim (Title.strip_quotes text))) eqn:T.
      * split; [now apply truthy_nonempty|]. split; [|split; [|split]].
        -- apply Forall_forall. intros c Hc.
           apply trim_chars in Hc. now apply strip_quotes_chars in Hc.
        -- apply trim_clean_start.
        -- apply trim_clean_end.
        -- intros text' [= <-] _. reflexivity.
      * destruct Hdefault as (H1 & H2 & H3 & H4). repeat split; auto.
        intros text' [= <-] Hne. apply truthy_nonempty in Hne. congruence.
    + destruct Hdefault as (H1 & H2 & H3 & H4). repeat split; auto.
      intros text' [=].
  - now intros ->.
  - now intros ->.
  - intros text -> E. now rewrite E.
Qed.

Lemma generateTitle_is_clean_witness :
  let text := (String (ascii_of_nat 34) "  Trip Plans' "
                 ++ String (ascii_of_nat 34) " ")%string in
  let quotes_only := fun _ : string =>
    App.Resolves (Some (String (ascii_of_nat 34) (String (ascii_of_nat 34) " "))) in
  Title.generateTitle quoting_model "Plan a trip" = Some "Trip Plans" /\
  "Trip Plans" = Js.trim (Title.strip_quotes text) /\
  Title.generateTitle quotes_only "Plan a trip" = Some "New Chat".
Proof.
  intros text quotes_only. split; [reflexivity|]. split.
  - destruct (generateTitle_is_clean quoting_model "Plan a trip")
      as ((_ & _ & _ & _ & H) & _).
    apply H; [reflexivity|discriminate].
  - destruct (generateTitle_is_clean quotes_only "Plan a trip") as (_ & _ & _ & H).
    apply (H (String (ascii_of_nat 34) (String (ascii_of_nat 34) " "))); reflexivity.
Defined.

(** X11: with an input made of white space only (the empty input
    included), or while a turn is loading, [handleSendMessage] sends nothing
    and changes nothing: the component and the server are as they were. *)
Theorem handleSendMessage_ignores_blank_input
        (clock : nat -> Timestamp)
        (generateContent : list App.Content.t -> App.ModelOutcome)
        (uuid : string) (s : App.State) (w : World) :
  Forall (fun c => Js.is_white_space c = true) (View.chars (App.input s)) \/
  App.isLoading s = true ->
  App.handleSendMessage clock generateContent uuid s w = (s, w).
Proof.
  intros H. unfold App.handleSendMessage. destruct H as [H| ->].
  - rewrite (trim_blank _ H). reflexivity.
  - now rewrite orb_true_r.
Qed.

Lemma handleSendMessage_ignores_blank_input_witness :
  let s := App.mkState [[]] [] None 0%nat (String (ascii_of_nat 9) "  ") false in
  App.handleSendMessage wall_clock answers_after_first "u-1" s boot = (s, boot).
Proof.
  intros s. apply handleSendMessage_ignores_blank_input.
  left. repeat constructor.
Defined.

(** ** What the component does to the server *)

Lemma aiContent_nonempty (text : option string) : App.aiContent text <> EmptyString.
Proof.
  unfold App.aiContent. destruct text as [t|]; [|discriminate].
  destruct (Js.truthy t) eqn:T; [now apply truthy_nonempty|discriminate].
Qed.

(** X12: a turn whose model call resolves shows the user message and then
    the reply, clears the input and resets the loading flag.  The reply is the
    text of the model, or the apology when the text is missing or empty, so it
    is never empty.  Nothing of it reaches the store: both messages are posted
    under /api/chats, where the server has no route, and the server is left
    exactly as it was. *)
Theorem resolved_turn_is_shown_not_stored
        (clock : nat -> Timestamp)
        (generateContent : list App.Content.t -> App.ModelOutcome)
        (uuid : string) (s : App.State) (w : World) (text : option string) :
  let chatId := fst (fst (App.ensureChat clock uuid s w)) in
  let history := App.deref (App.heap s) (App.messages s) in
  let s' := fst (App.handleSendMessage clock generateContent uuid s w) in
  let w' := snd (App.handleSendMessage clock generateContent uuid s w) in
  Js.truthy (Js.trim (App.input s)) = true ->
  App.isLoading s = false ->
  (App.messages s < List.length (App.heap s))%nat ->
  Http.plain chatId = true ->
  generateContent (App.contents_of history (App.input s)) = App.Resolves text ->
  App.deref (App.heap s') (App.messages s') =
    history ++ [App.Message.mk None App.user (App.input s);
                App.Message.mk None App.model (App.aiContent text)] /\
  App.aiContent text <> EmptyString /\
  (forall t, text = Some t -> t <> EmptyString -> App.aiContent text = t) /\
  (text = None \/ text = Some EmptyString ->
   App.aiContent text = "I'm sorry, I couldn't generate a response.") /\
  App.isLoading s' = false /\ App.input s' = EmptyString /\
  w' = w.
Proof.
  intros chatId history s' w' Hin Hload Hvalid _ Hanswer.
  destruct (handleSendMessage_runs clock generateContent uuid s w Hin Hload Hvalid)
    as (Hw & Hshown & _ & Hload' & Hinput' & _).
  fold history s' w' in Hw, Hshown, Hload', Hinput'. rewrite Hanswer in Hshown.
  split; [exact Hshown|]. split; [apply aiContent_nonempty|].
  split; [|split; [|auto]].
  - intros t -> Hne. unfold App.aiContent.
    apply truthy_nonempty in Hne. now rewrite Hne.
  - intros [-> | ->]; reflexivity.
Qed.

Lemma resolved_turn_is_shown_not_stored_witness :
  let w := serve wall_clock [PostThread (Some "T1") (Some "Test")] boot in
  let s := App.mkState [[]] [] (Some "T1") 0%nat "Hello" false in
  let model := fun _ : list App.Content.t => App.Resolves (Some "Hi there") in
  let turn := App.handleSendMessage wall_clock model "u-1" s w in
  App.deref (App.heap (fst turn)) (App.messages (fst turn)) =
    [App.Message.mk None App.user "Hello"; App.Message.mk None App.model "Hi there"] /\
  snd turn = w /\
  fst (listMessages "T1" (snd turn)) = JsonMessages [].
Proof.
  intros w s model turn.
  destruct (resolved_turn_is_shown_not_stored wall_clock model "u-1" s w (Some "Hi there")
              eq_refl eq_refl (Nat.lt_0_succ 0) eq_refl eq_refl)
    as (Hshown & _ & _ & _ & _ & _ & Hw).
  split; [exact Hshown|]. split; [exact Hw|].
  unfold turn. rewrite Hw. reflexivity.
Defined.

(** X13: [handleSendMessage] never reads or writes the store and never
    loads the list of chats.  Whatever the input, the selection and the
    outcome of the model call, every request it sends is under /api/chats,
    which matches no route of the server, so the server is left as it was and
    [chats] keeps its value; [fetchChats] on its own changes nothing either. *)
Theorem handleSendMessage_never_reaches_store
        (clock : nat -> Timestamp)
        (generateContent : list App.Content.t -> App.ModelOutcome)
        (uuid : string) (s : App.State) (w : World) :
  Http.plain uuid = true ->
  (forall chatId, App.currentChatId s = Some chatId -> chatId <> EmptyString ->
                  Http.plain chatId = true) ->
  snd (App.handleSendMessage clock generateContent uuid s w) = w /\
  App.chats (fst (App.handleSendMessage clock generateContent uuid s w)) = App.chats s /\
  App.fetchChats clock s w = (s, w).
Proof.
  intros _ _. destruct (handleSendMessage_world clock generateContent uuid s w) as [Hw Hc].
  split; [exact Hw|]. split; [exact Hc|apply fetchChats_unhandled].
Qed.

Lemma handleSendMessage_never_reaches_store_witness :
  let w := serve wall_clock [PostThread (Some "T1") (Some "Test")] boot in
  let s := App.mkState [[]] [] None 0%nat "Hello" false in
  snd (App.handleSendMessage wall_clock answers_after_first "u-1" s w) = w.
Proof.
  intros w s.
  apply (handleSendMessage_never_reaches_store wall_clock answers_after_first "u-1" s w).
  - reflexivity.
  - intros chatId H. discriminate.
Defined.

(** X14: the chat a turn goes to.  With a selected chat whose id is not
    empty the turn keeps the selection; with no selection, or with the empty
    string as selection, it selects the fresh id it drew. *)
Theorem turn_selects_chat
        (clock : nat -> Timestamp)
        (generateContent : list App.Content.t -> App.ModelOutcome)
        (uuid : string) (s : App.State) (w : World) :
  let s' := fst (App.handleSendMessage clock generateContent uuid s w) in
  Js.truthy (Js.trim (App.input s)) = true ->
  App.isLoading s = false ->
  (App.messages s < List.length (App.heap s))%nat ->
  (forall chatId, App.currentChatId s = Some chatId -> chatId <> EmptyString ->
                  App.currentChatId s' = Some chatId) /\
  (App.currentChatId s = None \/ App.currentChatId s = Some EmptyString ->
   App.currentChatId s' = Some uuid).
Proof.
  intros s' Hin Hload Hvalid.
  destruct (handleSendMessage_runs clock generateContent uuid s w Hin Hload Hvalid)
    as (_ & _ & _ & _ & _ & Hchat & _).
  fold s' in Hchat. rewrite ensureChat_result in Hchat. split.
  - intros chatId E Hne. rewrite E in Hchat.
    apply truthy_nonempty in Hne. now rewrite Hne in Hchat.
  - intros [E|E]; rewrite E in Hchat; exact Hchat.
Qed.

Lemma turn_selects_chat_witness :
  let s := App.mkState [[]] [] (Some "") 0%nat "Hello" false in
  App.currentChatId (fst (App.handleSendMessage wall_clock answers_after_first "u-1" s boot))
    = Some "u-1".
Proof.
  intros s.
  apply (proj2 (turn_selects_chat wall_clock answers_after_first "u-1" s boot
                  eq_refl eq_refl (Nat.lt_0_succ 0))).
  right. reflexivity.
Defined.

(** X15: [createNewChat] selects the id it drew and changes nothing else.
    The POST and the reload go to /api/chats, where the server has no route:
    no thread is created for the id, the server is left as it was, and the
    list of chats, the messages shown, the input and the loading flag keep
    their values. *)
Theorem createNewChat_only_selects (clock : nat -> Timestamp)
        (uuid : string) (s : App.State) (w : World) :
  let s' := fst (App.createNewChat clock uuid s w) in
  let w' := snd (App.createNewChat clock uuid s w) in
  Http.plain uuid = true ->
  App.currentChatId s' = Some uuid /\
  w' = w /\
  Store.thread_exists (Some uuid) (db w') = Store.thread_exists (Some uuid) (db w) /\
  App.chats s' = App.chats s /\ App.heap s' = App.heap s /\
  App.messages s' = App.messages s /\ App.input s' = App.input s /\
  App.isLoading s' = App.isLoading s.
Proof.
  intros s' w' _. unfold s', w'. rewrite createNewChat_result. simpl. auto 10.
Qed.

Lemma createNewChat_only_selects_witness :
  let s := App.mkState [[]] [] None 0%nat "" false in
  App.currentChatId (fst (App.createNewChat wall_clock "u-1" s boot)) = Some "u-1" /\
  snd (App.createNewChat wall_clock "u-1" s boot) = boot.
Proof.
  intros s.
  destruct (createNewChat_only_selects wall_clock "u-1" s boot eq_refl) as (H1 & H2 & _).
  split; [exact H1|exact H2].
Defined.

(** X16: [deleteChat(id)] drops the selection when the selected chat is
    [id] and keeps any other selection.  The DELETE and
    the reload go to /api/chats, where the server has no route: the thread and
    its messages stay in the store, the server is left as it was, and the list
    of chats keeps its value. *)
Theorem deleteChat_only_deselects (clock : nat -> Timestamp)
        (id : string) (s : App.State) (w : World) :
  let s' := fst (App.deleteChat clock id s w) in
  let w' := snd (App.deleteChat clock id s w) in
  Http.plain id = true ->
  w' = w /\
  fst (listMessages id w') = fst (listMessages id w) /\
  App.chats s' = App.chats s /\
  (App.currentChatId s = Some id -> App.currentChatId s' = None) /\
  (App.currentChatId s <> Some id -> App.currentChatId s' = App.currentChatId s).
Proof.
  intros s' w' _. unfold s', w'. rewrite deleteChat_result. cbn [fst snd].
  split; [reflexivity|]. split; [reflexivity|].
  destruct (App.currentChatId s) as [c|] eqn:E.
  - destruct (String.eqb_spec c id) as [->|Hne]; simpl; rewrite ?E.
    + split; [reflexivity|]. split; [reflexivity|]. intros H. congruence.
    + split; [reflexivity|]. split; [|reflexivity]. intros [= H]. contradiction.
  - rewrite E. split; [reflexivity|]. split; [discriminate|reflexivity].
Qed.

Lemma deleteChat_only_deselects_witness :
  let w := serve wall_clock
             [PostThread (Some "T1") (Some "One");
              PostMessage "T1" (Some "user") (Some "Hello")] boot in
  let s := App.mkState [[]] [] (Some "T1") 0%nat "" false in
  snd (App.deleteChat wall_clock "T1" s w) = w /\
  App.currentChatId (fst (App.deleteChat wall_clock "T1" s w)) = None.
Proof.
  intros w s.
  destruct (deleteChat_only_deselects wall_clock "T1" s w eq_refl) as (H1 & _ & _ & H2 & _).
  split; [exact H1|apply H2; reflexivity].
Defined.

Lemma handleSendMessage_heap
      (clock : nat -> Timestamp)
      (generateContent : list App.Content.t -> App.ModelOutcome)
      (uuid : string) (s : App.State) (w : World) :
  exists fresh,
    App.heap (fst (App.handleSendMessage clock generateContent uuid s w)) =
    App.heap s ++ fresh.
Proof.
  unfold App.handleSendMessage.
  destruct (negb (Js.truthy (Js.trim (App.input s))) || App.isLoading s);
    [exists []; simpl; now rewrite app_nil_r|].
  pose proof (ensureChat_state clock uuid s w) as (Eh & _).
  destruct (App.ensureChat clock uuid s w) as [[chatId s1] w1]. cbn [fst snd] in Eh.
  rewrite post_message_unhandled.
  unfold App.assemble_contents, App.setMessages_append, App.spread_then, App.alloc.
  cbn [App.heap App.setIsLoading App.setInput App.messages].
  destruct (generateContent _) as [|text].
  - cbn [fst App.heap App.setIsLoading]. rewrite Eh, <- !app_assoc. eexists. reflexivity.
  - rewrite post_message_unhandled.
    cbn [fst App.heap App.setIsLoading]. rewrite Eh, <- !app_assoc. eexists. reflexivity.
Qed.

(** X17: a turn never changes an array in place.  Whatever the input, the
    outcome of the model call and the answers of the server, every array of
    messages that existed before [handleSendMessage] holds the same elements
    after it; the new lists shown are new arrays. *)
Theorem handleSendMessage_never_mutates
        (clock : nat -> Timestamp)
        (generateContent : list App.Content.t -> App.ModelOutcome)
        (uuid : string) (s : App.State) (w : World) (r : App.Ref) :
  (r < List.length (App.heap s))%nat ->
  App.deref (App.heap (fst (App.handleSendMessage clock generateContent uuid s w))) r =
  App.deref (App.heap s) r.
Proof.
  intros Hr. destruct (handleSendMessage_heap clock generateContent uuid s w) as (fresh & ->).
  unfold App.deref. now rewrite app_nth1.
Qed.

Lemma handleSendMessage_never_mutates_witness :
  let m1 := App.Message.mk (Some 1) App.user "Hello" in
  let m2 := App.Message.mk (Some 2) App.model "Hi there" in
  let s := App.mkState [[m1; m2]] [] (Some "T1") 0%nat "And then?" false in
  App.deref (App.heap (fst (App.handleSendMessage wall_clock answers_after_first "u-1" s boot)))
            0%nat = [m1; m2].
Proof.
  intros m1 m2 s.
  apply (handleSendMessage_never_mutates wall_clock answers_after_first "u-1" s boot 0%nat).
  simpl. lia.
Defined.

Section CreatedBeforeUpdated.
Import Store Inv.
Variable clock : nat -> Timestamp.
Hypothesis clock_monotone : monotone clock.

Lemma handle_ordered (r : Request) (w : World) :
  Timely (clock (tick w)) (db w) -> created_before_updated (db w) ->
  created_before_updated (db (snd (handle clock r w))).
Proof.
  intros T Ho. unfold created_before_updated in *.
  pose proof (clock_monotone (tick w)) as Hc.
  pose proof (t_threads _ _ T) as Hb.
  destruct r as [|id ttl|tid|tid role content|tid|tid ttl]; simpl; auto.
  - unfold createThread, insert_thread; simpl.
    destruct (thread_exists id (db w)); simpl; [exact Ho|].
    apply Forall_app. split; [exact Ho|]. constructor; [simpl; lia|constructor].
  - unfold appendMessage, insert_message; simpl.
    destruct (new_rowid (db w)); simpl; [|exact Ho].
    destruct (thread_exists (Some tid) (db w)); simpl; [|exact Ho].
    rewrite Forall_map, Forall_forall in *. intros t Ht.
    specialize (Ho t Ht). specialize (Hb t Ht).
    destruct (sql_eq (Thread.id t) (Some tid)); simpl; lia.
  - rewrite Forall_forall in *. intros t Ht. apply filter_In in Ht. apply Ho, Ht.
  - rewrite Forall_map. revert Ho. apply Forall_impl. intros t Ht.
    destruct (sql_eq (Thread.id t) (Some tid)); simpl; lia.
Qed.

Lemma serve_ordered (rs : list Request) (w : World) :
  Timely (clock (tick w)) (db w) -> created_before_updated (db w) ->
  created_before_updated (db (serve clock rs w)).
Proof.
  revert w. induction rs as [|r rs IH]; intros w T Ho; [exact Ho|].
  rewrite serve_cons. apply IH.
  - apply handle_timely; assumption.
  - apply handle_ordered; assumption.
Qed.
End CreatedBeforeUpdated.

(** X18: while the clock does not step back, in every state the server
    reaches each thread was updated no earlier than it was created:
    [created_at <= updated_at]. *)
Theorem thread_updated_after_created (clock : nat -> Timestamp) (rs : list Request) :
  monotone clock ->
  Forall (fun t => Thread.created_at t <= Thread.updated_at t)
         (Store.threads (db (serve clock rs boot))).
Proof.
  intros Hmono. apply (serve_ordered clock Hmono).
  - apply empty_timely.
  - constructor.
Qed.

Lemma thread_updated_after_created_witness :
  Forall (fun t => Thread.created_at t <= Thread.updated_at t)
         (Store.threads
            (db (serve wall_clock
                   [PostThread (Some "T1") (Some "Test");
                    PostMessage "T1" (Some "user") (Some "Hello")] boot))).
Proof.
  apply thread_updated_after_created. intros n. unfold wall_clock. lia.
Defined.

(** ** The router *)


